(** * Runtipi: app lifecycle commands and the app files manager

    A shallow embedding of
    - [RestartAppCommand]
      (src/server/services/app-lifecycle/commands/restart-app-command.ts)
      over the app queries of src/server/queries/apps/apps.queries.ts,
    - [AppFilesManager]
      (packages/backend/src/modules/apps/app-files-manager.ts),
    - [UninstallAppCommand] of the backend,
    followed by the statements of the lifecycle specification that these
    sources settle. *)

From Stdlib Require Import Ascii String.
From stdpp Require Import base option strings list gmap.

(** ** The JavaScript runtime pieces the sources rely on *)

Module Js.

(** Thrown values: [new Error(message)] and the server's
    [new TranslatedError(code, { id })]. *)
Inductive Exn :=
| Error (message : string)
| TranslatedError (code : string) (id : string).

Definition message_of (e : Exn) : string :=
  match e with
  | Error m => m
  | TranslatedError c _ => c
  end.

(** The outcome of evaluating a call: a value, or a thrown exception
    (for an async function: a fulfilled or a rejected promise). *)
Inductive Res (A : Type) :=
| Ok (a : A)
| Throw (e : Exn).
Arguments Ok {A} a.
Arguments Throw {A} e.

(** [s.split(sep)] for a separator of one character: the pieces between
    the occurrences of [sep], the empty string giving one empty piece. *)
Fixpoint split (sep : ascii) (s : string) : list string :=
  match s with
  | EmptyString => [""]
  | String c s' =>
      if decide (c = sep) then "" :: split sep s'
      else match split sep s' with
           | [] => [String c ""]
           | piece :: pieces => String c piece :: pieces
           end
  end.

(** [!x] for a destructured string that may be [undefined]. *)
Definition falsy (x : option string) : bool :=
  match x with
  | None => true
  | Some s => bool_decide (s = "")
  end.

(** [`${error}`] for a thrown error. *)
Definition to_string (e : Exn) : string := "Error: " +:+ message_of e.

(** *** [node:path] on POSIX

    [path.join] glues its non-empty arguments with a slash and normalizes
    the result: empty and [.] segments are dropped, a [..] segment removes
    the segment before it (or is kept, for a relative path with nothing
    left to remove). *)
Definition isAbsolute (p : string) : bool :=
  match p with
  | String c _ => bool_decide (c = "/"%char)
  | EmptyString => false
  end.

Fixpoint trailingSeparator (p : string) : bool :=
  match p with
  | EmptyString => false
  | String c EmptyString => bool_decide (c = "/"%char)
  | String _ p' => trailingSeparator p'
  end.

(** One segment of [normalizeString]; [res] holds the segments kept so
    far, the last one first. *)
Definition normalizeSegment (allowAboveRoot : bool) (res : list string)
    (seg : string) : list string :=
  if bool_decide (seg = "") || bool_decide (seg = ".") then res
  else if bool_decide (seg = "..") then
    match res with
    | top :: rest =>
        if bool_decide (top = "..")
        then (if allowAboveRoot then ".." :: res else res)
        else rest
    | [] => if allowAboveRoot then [".."] else []
    end
  else seg :: res.

Definition normalizeString (p : string) (allowAboveRoot : bool) : string :=
  String.concat "/"
    (rev (fold_left (normalizeSegment allowAboveRoot) (split "/" p) [])).

Definition normalize (p : string) : string :=
  if bool_decide (p = "") then "."
  else
    let res := normalizeString p (negb (isAbsolute p)) in
    if bool_decide (res = "") then
      (if isAbsolute p then "/" else if trailingSeparator p then "./" else ".")
    else
      let res := if trailingSeparator p then res +:+ "/" else res in
      if isAbsolute p then "/" +:+ res else res.

Definition join (args : list string) : string :=
  match filter (λ a, a ≠ "") args with
  | [] => "."
  | parts => normalize (String.concat "/" parts)
  end.

(** *** Words used to state properties of strings *)

Fixpoint contains (c : ascii) (s : string) : bool :=
  match s with
  | EmptyString => false
  | String c' s' => bool_decide (c' = c) || contains c s'
  end.

(** The parts of [s] before and after its first [sep], if it has one. *)
Fixpoint cut (sep : ascii) (s : string) : option (string * string) :=
  match s with
  | EmptyString => None
  | String c s' =>
      if decide (c = sep) then Some ("", s')
      else match cut sep s' with
           | Some (before, after) => Some (String c before, after)
           | None => None
           end
  end.

(** [s] splits on its first underscore into two non-empty parts, the
    store and the id. *)
Definition splits_in_two (s : string) : bool :=
  match cut "_" s with
  | Some (store, id) =>
      negb (bool_decide (store = "")) && negb (bool_decide (id = ""))
  | None => false
  end.

(** The store and the id an app id names: what stands before its first
    underscore, and what follows up to the next underscore or the end,
    when neither is empty. *)
Definition store_and_id (appId : string) : option (string * string) :=
  match cut "_" appId with
  | Some (store, rest) =>
      let id := match cut "_" rest with
                | Some (id, _) => id
                | None => rest
                end in
      if bool_decide (store = "") || bool_decide (id = "") then None
      else Some (store, id)
  | None => None
  end.

(** A file name: one segment, which normalization keeps as it is. *)
Definition file_name (n : string) : bool :=
  negb (contains "/" n)
  && negb (bool_decide (n = "")) && negb (bool_decide (n = "."))
  && negb (bool_decide (n = "..")).

(** What [join [dir; n]] puts before a file name [n]. *)
Definition dirname_slash (dir : string) : string :=
  if bool_decide (dir = "") then ""
  else
    let kept :=
      rev (fold_left (normalizeSegment (negb (isAbsolute dir)))
             (split "/" dir) []) in
    (if isAbsolute dir then "/" else "") +:+
    match kept with
    | [] => ""
    | _ => String.concat "/" kept +:+ "/"
    end.

End Js.

(** ** The restart command of the server *)

Module RestartApp.
Import Js.

(** Modelled from the spec: the [AppStatus] type of [@runtipi/db] is not
    among the sources; these are the states of the status state machine
    (section 4.5), [missing] being the state of an app without a record. *)
Inductive AppStatus :=
| missing | installing | running | stopped
| updating | restarting | uninstalling | errored.

#[global] Instance AppStatus_eq_dec : EqDecision AppStatus.
Proof. solve_decision. Defined.

Definition transitional (s : AppStatus) : bool :=
  match s with
  | installing | updating | restarting | uninstalling => true
  | _ => false
  end.

(** [DispatchResult]: what [dispatchEventAsync] resolves to. *)
Record DispatchResult := { success : bool; stdout : string }.

(** The status [sendEvent] writes for a result. *)
Definition terminal (r : DispatchResult) : AppStatus :=
  if success r then running else stopped.

Section Command.
(** [app.config] is an opaque JSON value; [castAppConfig] (from
    [@/lib/helpers/castAppConfig]) turns it into the event's form. *)
Context {Config Form : Type} (castAppConfig : Config → Form).

(** A row of [appTable]. *)
Record App := { id : string; status : AppStatus; config : Config }.

(** [Partial<NewApp>]: the columns an update sets. *)
Record PartialApp :=
  { set_status : option AppStatus; set_config : option Config }.

Definition patch (data : PartialApp) (a : App) : App :=
  {| id := id a;
     status := default (status a) (set_status data);
     config := default (config a) (set_config data) |}.

(** The literal [{ status: s }]. *)
Definition to_status (s : AppStatus) : PartialApp :=
  {| set_status := Some s; set_config := None |}.

(** The event handed to the dispatcher. *)
Record SystemEvent :=
  { type : string; command : string; appid : string; form : Form }.

(** What the command does to its collaborators, in program order. *)
Inductive Event :=
| GetApp (appId : string)
| UpdateApp (appId : string) (data : PartialApp)
| DispatchEventAsync (ev : SystemEvent)
| Settled (result : DispatchResult)
| LoggerError (msg : string).

(** An async function body parked at an [await] on the dispatcher. *)
Inductive Task := SendEventAwait (appId : string).

#[export] Instance Task_eq_dec : EqDecision Task.
Proof. solve_decision. Defined.

Fixpoint list_remove_first (t : Task) (l : list Task) : list Task :=
  match l with
  | [] => []
  | t' :: l' => if decide (t = t') then l' else t' :: list_remove_first t l'
  end.

(** The app table, the journal of calls, and the jobs the event loop
    still holds. *)
Record World :=
  { apps : gmap string App; trace : list Event; pending : list Task }.

Definition emit (e : Event) (w : World) : World :=
  {| apps := apps w; trace := trace w ++ [e]; pending := pending w |}.

Definition park (t : Task) (w : World) : World :=
  {| apps := apps w; trace := trace w; pending := pending w ++ [t] |}.

Definition M (A : Type) : Type := World → Res A * World.

#[export] Instance M_ret : MRet M := λ A a w, (Ok a, w).
#[export] Instance M_bind : MBind M := λ A B f m w,
  match m w with
  | (Ok a, w') => f a w'
  | (Throw e, w') => (Throw e, w')
  end.

Definition throw {A} (e : Exn) : M A := λ w, (Throw e, w).

(** [AppQueries.getApp]: [findFirst] on the id. *)
Definition getApp (appId : string) : M (option App) :=
  λ w, (Ok (apps w !! appId), emit (GetApp appId) w).

(** [AppQueries.updateApp]: [update ... set data where id = appId
    returning], the first updated row or [undefined]. *)
Definition updateApp (appId : string) (data : PartialApp) : M (option App) :=
  λ w,
    let w1 := emit (UpdateApp appId data) w in
    match apps w !! appId with
    | Some a =>
        (Ok (Some (patch data a)),
         {| apps := <[appId := patch data a]> (apps w);
            trace := trace w1; pending := pending w1 |})
    | None => (Ok None, w1)
    end.

Definition logger_error (msg : string) : M unit :=
  λ w, (Ok tt, emit (LoggerError msg) w).

Definition restart_event (appId : string) (f : Form) : SystemEvent :=
  {| type := "app"; command := "restart"; appid := appId; form := f |}.

(** [sendEvent] up to its [await]: the call to [dispatchEventAsync] is
    made and the rest of the body waits for the promise. *)
Definition sendEvent (appId : string) (f : Form) : M Task :=
  λ w, (Ok (SendEventAwait appId),
        emit (DispatchEventAsync (restart_event appId f)) w).

(** [sendEvent] from its [await] on, once the dispatcher's promise
    has resolved to [{ success, stdout }]. *)
Definition sendEvent_resume (appId : string) (r : DispatchResult) : M unit :=
  if success r then
    _ ← updateApp appId (to_status running);
    mret tt
  else
    _ ← logger_error ("Failed to restart app " +:+ appId +:+ ": " +:+ stdout r);
    _ ← updateApp appId (to_status stopped);
    mret tt.

(** [void p]: the caller drops the promise; the parked body stays with
    the event loop. *)
Definition schedule (t : Task) : M unit := λ w, (Ok tt, park t w).

Definition void (p : M Task) : M unit := t ← p; schedule t.

(** [RestartAppCommand.execute]. *)
Definition execute (appId : string) : M unit :=
  app ← getApp appId;
  match app with
  | None => throw (TranslatedError "APP_ERROR_APP_NOT_FOUND" appId)
  | Some app =>
      _ ← updateApp appId (to_status restarting);
      void (sendEvent appId (castAppConfig (config app)))
  end.

(** The event loop delivers the dispatcher's result to a parked body,
    which then runs to its end. *)
Definition unpark (t : Task) (w : World) : World :=
  {| apps := apps w; trace := trace w;
     pending := list_remove_first t (pending w) |}.

Definition deliver (t : Task) (r : DispatchResult) : M unit :=
  λ w,
    match t with
    | SendEventAwait appId =>
        sendEvent_resume appId r (emit (Settled r) (unpark t w))
    end.

Definition status_of (w : World) (appId : string) : option AppStatus :=
  status <$> apps w !! appId.

Definition dispatches (tr : list Event) : list SystemEvent :=
  omap (λ e, match e with DispatchEventAsync ev => Some ev | _ => None end) tr.

Definition writes (tr : list Event) : list (string * PartialApp) :=
  omap (λ e, match e with UpdateApp i d => Some (i, d) | _ => None end) tr.

(** [AppQueries.updateAppsByStatusNotIn], on the table alone: [update ...
    set data where status not in statuses returning].  The rows updated
    come back in no stated order and are given by id, with the table
    after the update. *)
Definition updateAppsByStatusNotIn (statuses : list AppStatus) (data : PartialApp)
    (table : gmap string App) : gmap string App * gmap string App :=
  let updated := patch data <$> filter (λ row, status row.2 ∉ statuses) table in
  (updated, updated ∪ table).

End Command.

(** A table with the one app [store_nginx], nothing journaled and nothing
    parked; its config is kept as JSON text and cast as it is. *)
Definition nginx (s : AppStatus) : App :=
  {| id := "store_nginx"; status := s; config := "{}" |}.

Definition one_app (s : AppStatus) : World (Form:=string) :=
  {| apps := {[ "store_nginx" := nginx s ]}; trace := []; pending := [] |}.

Definition empty_table : World (Config:=string) (Form:=string) :=
  {| apps := ∅; trace := []; pending := [] |}.

Definition keep_config (c : string) : string := c.

End RestartApp.

(** ** The backend: files manager and uninstall command *)

Module Backend.
Import Js.

(** [directories] of the configuration. *)
Module Directories.
Record t := { dataDir : string; appDataDir : string }.
End Directories.

(** What [ConfigurationService] serves: [getConfig().directories] and
    [get('architecture')]. *)
Record Config := { directories : Directories.t; architecture : string }.

(** The object [getAppPaths] returns. *)
Record AppPaths := { appDataDir : string; appInstalledDir : string }.

(** The [{ path, content }] objects the getters return. *)
Record FileContent (A : Type) := { path : string; content : A }.
Arguments path {A} _.
Arguments content {A} _.

(** The [{ success, message }] object a lifecycle command returns. *)
Record CommandResult := { success : bool; message : string }.

(** The calls made to the collaborators, in program order. *)
Inductive Call :=
| PathExists (p : string)
| ReadTextFile (p : string)
| ReadJsonFile (p : string)
| WriteTextFile (p data : string)
| RemoveDirectory (p : string)
| CreateDirectory (p : string)
| ExecAsync (cmd : string)
| EnsureAppDir (appId : string)
| ComposeApp (appId cmd : string)
| LoggerInfo (msg : string)
| LoggerDebug (msg : string)
| LoggerWarn (msg : string) (err : Exn)
| LoggerError (msg : string).

(** [FilesystemService], over a state [W] of the machine it acts on;
    every operation may throw. *)
Class FilesystemService (W Json : Type) := {
  fs_pathExists : string → W → Res bool * W;
  fs_readTextFile : string → W → Res (option string) * W;
  fs_readJsonFile : string → W → Res (option Json) * W;
  fs_writeTextFile : string → string → W → Res unit * W;
  fs_removeDirectory : string → W → Res unit * W;
  fs_createDirectory : string → W → Res unit * W
}.

(** [execAsync] of the exec helpers. *)
Class Shell (W : Type) := {
  sh_execAsync : string → W → Res unit * W
}.

(** [DockerService.composeApp]. *)
Class DockerService (W : Type) := {
  docker_composeApp : string → string → W → Res unit * W
}.

(** [ensureAppDir] of the [AppLifecycleCommand] base class, which is not
    among the sources: any state transformer that may throw. *)
Class AppLifecycleCommand (W Form : Type) := {
  base_ensureAppDir : string → Form → W → Res unit * W
}.

Section Manager.
Context {W Json AppInfo : Type}.
Context `{!FilesystemService W Json, !Shell W}.
(** [JSON.parse], [appInfoSchema.safeParse] (the parsed data or the
    error's text) and the [available] field of the parsed data. *)
Context (JSON_parse : string → Res Json).
Context (safeParse : Json → AppInfo + string) (available : AppInfo → bool).
Context (cfg : Config).

Record State := { world : W; calls : list Call }.

Definition M (A : Type) : Type := State → Res A * State.

#[export] Instance M_ret : MRet M := λ A a s, (Ok a, s).
#[export] Instance M_bind : MBind M := λ A B f m s,
  match m s with
  | (Ok a, s') => f a s'
  | (Throw e, s') => (Throw e, s')
  end.

Definition lift {A} (r : Res A) : M A := λ s, (r, s).

(** [try { body } catch (e) { handler }]. *)
Definition try_catch {A} (body : M A) (handler : Exn → M A) : M A :=
  λ s,
    match body s with
    | (Ok a, s') => (Ok a, s')
    | (Throw e, s') => handler e s'
    end.

(** A call to a collaborator: journaled, then run on the machine. *)
Definition call {A} (c : Call) (f : W → Res A * W) : M A :=
  λ s,
    let '(r, w') := f (world s) in
    (r, {| world := w'; calls := calls s ++ [c] |}).

Definition log (c : Call) : M unit :=
  λ s, (Ok tt, {| world := world s; calls := calls s ++ [c] |}).

Definition pathExists (p : string) : M bool :=
  call (PathExists p) (fs_pathExists p).
Definition readTextFile (p : string) : M (option string) :=
  call (ReadTextFile p) (fs_readTextFile p).
Definition readJsonFile (p : string) : M (option Json) :=
  call (ReadJsonFile p) (fs_readJsonFile p).
Definition writeTextFile (p data : string) : M unit :=
  call (WriteTextFile p data) (fs_writeTextFile p data).
Definition removeDirectory (p : string) : M unit :=
  call (RemoveDirectory p) (fs_removeDirectory p).
Definition createDirectory (p : string) : M unit :=
  call (CreateDirectory p) (fs_createDirectory p).
Definition execAsync (cmd : string) : M unit :=
  call (ExecAsync cmd) (sh_execAsync cmd).

(** *** [AppFilesManager] *)

Definition getInstalledAppsFolder : string :=
  join [Directories.dataDir (directories cfg); "apps"].

Definition getAppPaths (namespacedAppId : string) : Res AppPaths :=
  let parts := split "_" namespacedAppId in
  let store := parts !! 0 in
  let id := parts !! 1 in
  if falsy store || falsy id then
    Throw (Error ("Invalid namespaced app id: " +:+ namespacedAppId))
  else
    Ok {| appDataDir :=
            join [Directories.appDataDir (directories cfg);
                  default "" store; default "" id];
          appInstalledDir :=
            join [getInstalledAppsFolder; default "" store; default "" id] |}.

(** What [getInstalledAppInfo] evaluates to: nothing ([undefined]),
    [null], or the parsed data with its description. *)
Inductive InstalledAppInfo :=
| InfoUndefined
| InfoNull
| Info (data : AppInfo) (description : string).

Definition getInstalledAppInfo (id : string) : M InstalledAppInfo :=
  try_catch
    (paths ← lift (getAppPaths id);
     let dir := appInstalledDir paths in
     found ← pathExists (join [dir; "config.json"]);
     if found : bool then
       configFile ← readTextFile (join [dir; "config.json"]);
       json ← lift (JSON_parse (default "" configFile));
       match safeParse json with
       | inr error =>
           _ ← log (LoggerDebug ("App " +:+ id +:+ " config error:"));
           _ ← log (LoggerDebug error);
           mret InfoUndefined
       | inl data =>
           if available data then
             description ← readTextFile (join [dir; "metadata"; "description.md"]);
             mret (Info data (default "" description))
           else mret InfoUndefined
       end
     else mret InfoUndefined)
    (λ _, mret InfoNull).

(** The condition [arch === 'arm64' && (await pathExists(...))]. *)
Definition armComposeExists (dir : string) : M bool :=
  if bool_decide (architecture cfg = "arm64")
  then pathExists (join [dir; "docker-compose.arm64.yml"])
  else mret false.

Definition getDockerComposeYaml (id : string) : M (FileContent (option string)) :=
  paths ← lift (getAppPaths id);
  let dir := appInstalledDir paths in
  arm ← armComposeExists dir;
  let dockerComposePath :=
    if arm : bool then join [dir; "docker-compose.arm64.yml"]
    else join [dir; "docker-compose.yml"] in
  content ← try_catch
    (found ← pathExists dockerComposePath;
     if found : bool then readTextFile dockerComposePath else mret None)
    (λ error,
       _ ← log (LoggerError ("Error getting docker-compose.yml for installed app "
                               +:+ id +:+ ": " +:+ to_string error));
       mret None);
  mret {| path := dockerComposePath; content := content |}.

Definition getDockerComposeJson (id : string) : M (FileContent (option Json)) :=
  paths ← lift (getAppPaths id);
  let dockerComposePath := join [appInstalledDir paths; "docker-compose.json"] in
  content ← try_catch
    (found ← pathExists dockerComposePath;
     if found : bool then readJsonFile dockerComposePath else mret None)
    (λ error,
       _ ← log (LoggerError ("Error getting docker-compose.json for installed app "
                               +:+ id +:+ ": " +:+ to_string error));
       mret None);
  mret {| path := dockerComposePath; content := content |}.

Definition writeDockerComposeYml (appId composeFile : string) : M unit :=
  paths ← lift (getAppPaths appId);
  let dockerComposePath := join [appInstalledDir paths; "docker-compose.yml"] in
  writeTextFile dockerComposePath composeFile.

Definition deleteAppFolder (appId : string) : M unit :=
  paths ← lift (getAppPaths appId);
  removeDirectory (appInstalledDir paths).

Definition deleteAppDataDir (appId : string) : M unit :=
  paths ← lift (getAppPaths appId);
  removeDirectory (appDataDir paths).

Definition createAppDataDir (appId : string) : M unit :=
  paths ← lift (getAppPaths appId);
  createDirectory (appDataDir paths).

Definition setAppDataDirPermissions (appId : string) : M unit :=
  paths ← lift (getAppPaths appId);
  try_catch
    (execAsync ("chmod -Rf a+rwx " +:+ appDataDir paths))
    (λ _, log (LoggerError ("Error setting permissions for app " +:+ appId))).

Definition getAppEnv (appId : string) : M (FileContent string) :=
  paths ← lift (getAppPaths appId);
  let envPath := join [appDataDir paths; "app.env"] in
  found ← pathExists envPath;
  env ← (if found : bool
         then (text ← readTextFile envPath; mret (default "" text))
         else mret "");
  mret {| path := envPath; content := env |}.

Definition writeAppEnv (appId env : string) : M unit :=
  paths ← lift (getAppPaths appId);
  let envPath := join [appDataDir paths; "app.env"] in
  writeTextFile envPath env.

Definition getUserEnv (appId : string) : M (FileContent (option string)) :=
  let userEnvFile :=
    join [Directories.dataDir (directories cfg); "user-config"; appId; "app.env"] in
  found ← pathExists userEnvFile;
  content ← (if found : bool then readTextFile userEnvFile else mret None);
  mret {| path := userEnvFile; content := content |}.

Definition getUserComposeFile (appId : string) : M (FileContent (option string)) :=
  let userComposeFile :=
    join [Directories.dataDir (directories cfg); "user-config"; appId;
          "docker-compose.yml"] in
  found ← pathExists userComposeFile;
  content ← (if found : bool then readTextFile userComposeFile else mret None);
  mret {| path := userComposeFile; content := content |}.

(** *** The operations as a family

    Every public method that takes an app id, with its remaining
    arguments, and its run with the returned value dropped. *)
Inductive Operation :=
| GetInstalledAppInfo
| GetDockerComposeYaml
| GetDockerComposeJson
| WriteDockerComposeYml (composeFile : string)
| DeleteAppFolder
| DeleteAppDataDir
| CreateAppDataDir
| SetAppDataDirPermissions
| GetAppEnv
| WriteAppEnv (env : string)
| GetUserEnv
| GetUserComposeFile.

Definition ignore {A} (m : M A) : M unit := _ ← m; mret ().

Definition run (op : Operation) (appId : string) : M unit :=
  match op with
  | GetInstalledAppInfo => ignore (getInstalledAppInfo appId)
  | GetDockerComposeYaml => ignore (getDockerComposeYaml appId)
  | GetDockerComposeJson => ignore (getDockerComposeJson appId)
  | WriteDockerComposeYml composeFile => writeDockerComposeYml appId composeFile
  | DeleteAppFolder => deleteAppFolder appId
  | DeleteAppDataDir => deleteAppDataDir appId
  | CreateAppDataDir => createAppDataDir appId
  | SetAppDataDirPermissions => setAppDataDirPermissions appId
  | GetAppEnv => ignore (getAppEnv appId)
  | WriteAppEnv env => writeAppEnv appId env
  | GetUserEnv => ignore (getUserEnv appId)
  | GetUserComposeFile => ignore (getUserComposeFile appId)
  end.

(** Two calls of the same method, whatever else they pass. *)
Definition same_method (op1 op2 : Operation) : bool :=
  match op1, op2 with
  | GetInstalledAppInfo, GetInstalledAppInfo
  | GetDockerComposeYaml, GetDockerComposeYaml
  | GetDockerComposeJson, GetDockerComposeJson
  | WriteDockerComposeYml _, WriteDockerComposeYml _
  | DeleteAppFolder, DeleteAppFolder
  | DeleteAppDataDir, DeleteAppDataDir
  | CreateAppDataDir, CreateAppDataDir
  | SetAppDataDirPermissions, SetAppDataDirPermissions
  | GetAppEnv, GetAppEnv
  | WriteAppEnv _, WriteAppEnv _
  | GetUserEnv, GetUserEnv
  | GetUserComposeFile, GetUserComposeFile => true
  | _, _ => false
  end.

(** The methods that call [getAppPaths] outside any [try]. *)
Definition throws_on_invalid_id (op : Operation) : bool :=
  match op with
  | GetInstalledAppInfo | GetUserEnv | GetUserComposeFile => false
  | _ => true
  end.

(** The paths an app id stands for under the configuration, written
    out from the configured directories: the app's folder under
    [dataDir/apps] and its folder under [appDataDir], both by store and
    id, the six files of these the manager knows, and the two files of
    the user-config directory of the id. *)
Definition resolved (appId : string) : list string :=
  match store_and_id appId with
  | Some (store, id) =>
      let installed :=
        join [join [Directories.dataDir (directories cfg); "apps"]; store; id] in
      let data := join [Directories.appDataDir (directories cfg); store; id] in
      [installed;
       data;
       join [installed; "config.json"];
       join [installed; "metadata"; "description.md"];
       join [installed; "docker-compose.yml"];
       join [installed; "docker-compose.arm64.yml"];
       join [installed; "docker-compose.json"];
       join [data; "app.env"]]
  | None => []
  end ++
  [join [Directories.dataDir (directories cfg); "user-config"; appId; "app.env"];
   join [Directories.dataDir (directories cfg); "user-config"; appId;
         "docker-compose.yml"]].

End Manager.

(** The path a filesystem call is made on. *)
Definition target (c : Call) : option string :=
  match c with
  | PathExists p | ReadTextFile p | ReadJsonFile p | WriteTextFile p _
  | RemoveDirectory p | CreateDirectory p => Some p
  | _ => None
  end.

(** A journaled call stays within the paths of the app id: a filesystem
    call is made on one of them, a shell command is [chmod] on one of
    them, and the logger touches no path. *)
Definition addressed (cfg : Config) (appId : string) (c : Call) : Prop :=
  match c with
  | PathExists p | ReadTextFile p | ReadJsonFile p | WriteTextFile p _
  | RemoveDirectory p | CreateDirectory p => p ∈ resolved cfg appId
  | ExecAsync cmd =>
      ∃ p, p ∈ resolved cfg appId ∧ cmd = "chmod -Rf a+rwx " +:+ p
  | LoggerInfo _ | LoggerDebug _ | LoggerWarn _ _ | LoggerError _ => True
  | EnsureAppDir _ | ComposeApp _ _ => False
  end.

(** The filesystem keeps what is written: after a [writeTextFile] that
    returned, the file exists and reads back as the text written, and
    asking so leaves the machine as it is. *)
Definition keeps_written_text {W Json : Type} `{!FilesystemService W Json} : Prop :=
  ∀ (p data : string) (w w' : W),
    fs_writeTextFile p data w = (Ok (), w') →
    fs_pathExists p w' = (Ok true, w')
    ∧ fs_readTextFile p w' = (Ok (Some data), w').

(** *** [UninstallAppCommand] *)

Section Uninstall.
Context {W Json Form : Type}.
Context `{!FilesystemService W Json, !DockerService W, !AppLifecycleCommand W Form}.
Context (cfg : Config).

Definition ensureAppDir (appId : string) (form : Form) : M unit :=
  call (EnsureAppDir appId) (base_ensureAppDir appId form).

Definition composeApp (appId cmd : string) : M unit :=
  call (ComposeApp appId cmd) (docker_composeApp appId cmd).

(** Modelled from the spec: [handleAppError] of the [AppLifecycleCommand]
    base class is not among the sources.  The spec has uninstall report a
    failure for the inability to remove the local bundle, so the handler
    turns the caught error into a failure result; the result carries the
    error's message. *)
Definition handleAppError (err : Exn) (appId event : string) : M (W:=W) CommandResult :=
  mret {| success := false; message := message_of err |}.

(** The compose arguments of an uninstall. *)
Definition down : string := "down --remove-orphans --volumes --rmi all".

Definition uninstall_warning (appId : string) : string :=
  "Could not fully uninstall app " +:+ appId +:+
  ". Some images may be in use by other apps or a folder has been deleted. Consider cleaning unused images docker system prune -a".

(** [UninstallAppCommand.execute]. *)
Definition execute (appId : string) (form : Form) : M CommandResult :=
  try_catch
    (_ ← log (LoggerInfo ("Uninstalling app " +:+ appId));
     _ ← ensureAppDir appId form;
     _ ← try_catch
           (composeApp appId "down --remove-orphans --volumes --rmi all")
           (λ err, log (LoggerWarn (uninstall_warning appId) err));
     _ ← deleteAppFolder cfg appId;
     _ ← deleteAppDataDir cfg appId;
     _ ← log (LoggerInfo ("App " +:+ appId +:+ " uninstalled"));
     mret {| success := true;
             message := "App " +:+ appId +:+ " uninstalled successfully" |})
    (λ err, handleAppError err appId "uninstall").

End Uninstall.

(** *** A machine to run the backend on

    Text files by path, the directories that refuse to be removed, and
    whether the container engine answers. *)
Module Machine.

Record t := {
  files : gmap string string;
  locked : list string;
  engine_up : bool
}.

Definition with_files (f : gmap string string) (m : t) : t :=
  {| files := f; locked := locked m; engine_up := engine_up m |}.

Definition read (p : string) (m : t) : Res (option string) * t :=
  match files m !! p with
  | Some text => (Ok (Some text), m)
  | None => (Throw (Error ("ENOENT: " +:+ p)), m)
  end.

Definition remove (p : string) (m : t) : Res unit * t :=
  if bool_decide (p ∈ locked m) then (Throw (Error ("EACCES: " +:+ p)), m)
  else (Ok tt, with_files (filter (λ kv, ¬ String.prefix p kv.1 = true) (files m)) m).

#[export] Instance filesystem : FilesystemService t string := {|
  fs_pathExists p m := (Ok (bool_decide (is_Some (files m !! p))), m);
  fs_readTextFile := read;
  fs_readJsonFile := read;
  fs_writeTextFile p data m := (Ok tt, with_files (<[p := data]> (files m)) m);
  fs_removeDirectory := remove;
  fs_createDirectory p m := (Ok tt, m)
|}.

#[export] Instance shell : Shell t := {|
  sh_execAsync cmd m := (Ok tt, m)
|}.

#[export] Instance docker : DockerService t := {|
  docker_composeApp appId cmd m :=
    if engine_up m then (Ok tt, m)
    else (Throw (Error ("compose failed: " +:+ cmd)), m)
|}.

#[export] Instance lifecycle : AppLifecycleCommand t unit := {|
  base_ensureAppDir appId form m := (Ok tt, m)
|}.

Definition config : Config :=
  {| directories := {| Directories.dataDir := "/data";
                       Directories.appDataDir := "/app-data" |};
     architecture := "arm64" |}.

(** An installed app [store_nginx], with its env file missing. *)
Definition installed (up : bool) (locked : list string) : t :=
  {| files := {[ "/data/apps/store/nginx/docker-compose.yml" := "services: {}";
                 "/data/apps/store/nginx/config.json" := "{}" ]};
     locked := locked;
     engine_up := up |}.

(** The same app with a compose file for [arm64] beside the other. *)
Definition installed_arm64 (up : bool) (locked : list string) : t :=
  {| files := {[ "/data/apps/store/nginx/docker-compose.yml" := "services: {}";
                 "/data/apps/store/nginx/docker-compose.arm64.yml" := "services: {arm: {}}";
                 "/data/apps/store/nginx/config.json" := "{}" ]};
     locked := locked;
     engine_up := up |}.

Definition start (m : t) : State := {| world := m; calls := [] |}.

(** The machine keeps JSON as text; every text parses, and every parsed
    config is that of an available app. *)
Definition parse_json (text : string) : Res string := Ok text.
Definition parse_info (json : string) : string + string := inl json.
Definition app_available (info : string) : bool := true.

(** The same directories on another architecture. *)
Definition config_amd64 : Config :=
  {| directories := directories config; architecture := "amd64" |}.

(** A base class whose [ensureAppDir] finds nothing to copy. *)
Definition lifecycle_without_store : AppLifecycleCommand t unit := {|
  base_ensureAppDir appId form m :=
    (Throw (Error ("App " +:+ appId +:+ " not found in app store")), m)
|}.

(** The directories of [store_nginx] under [config]. *)
Definition nginx_paths : AppPaths :=
  {| appDataDir := "/app-data/store/nginx";
     appInstalledDir := "/data/apps/store/nginx" |}.

End Machine.
End Backend.

(** ** The authentication service of the server *)

Module Auth.
Import Js.

(** [new TranslatedError(code)], without variables. *)
Definition translated (code : string) : Exn := TranslatedError code "".

(** The columns of a user row the service reads. *)
Record User := {
  id : Z;
  username : string;
  password : string;
  totpEnabled : bool;
  totpSecret : option string;
  salt : option string
}.

(** The objects passed to [updateUser] and to [createUser]. *)
Record PartialUser := {
  set_username : option string;
  set_password : option string;
  set_totpEnabled : option bool;
  set_totpSecret : option (option string);
  set_salt : option string
}.

Definition no_change : PartialUser :=
  {| set_username := None; set_password := None; set_totpEnabled := None;
     set_totpSecret := None; set_salt := None |}.

Record NewUser := {
  new_username : string;
  new_password : string;
  new_operator : bool;
  new_locale : string
}.

Record UsernamePasswordInput := {
  input_username : string;
  input_password : string;
  input_locale : option string
}.

(** What [login] returns: [{ sessionId }] or [{ totpSessionId }]. *)
Record LoginResult := {
  sessionId : option string;
  totpSessionId : option string
}.

(** The calls made to the collaborators, in program order. *)
Inductive Call :=
| GetUserByUsername (name : string)
| GetUserById (userId : Z)
| GetUserDtoById (userId : Z)
| GetOperators
| GetFirstOperator
| UpdateUser (userId : Z) (data : PartialUser)
| CreateUser (data : NewUser)
| Argon2Verify (hash plain : string)
| Argon2Hash (plain : string)
| CacheSet (key value : string)
| CacheGet (key : string)
| CacheDel (key : string)
| GenerateSessionId (prefix : string)
| SetSession (session userId : string)
| Uuidv4
| Decrypt (data salt : string)
| Encrypt (data salt : string)
| TotpCheck (code secret : string)
| TotpGenerateSecret
| PathExists (p : string)
| ReadFile (p : string)
| Unlink (p : string)
| DateNow
| DestroyAllSessionsByUserId (userId : Z).

(** The collaborators, over a state [W] of the host: the user queries,
    the cache, the session manager, [argon2], [uuid], the TOTP
    authenticator, the encryption helpers, the configuration, the
    filesystem and the clock.  Each call may throw.  The concurrent
    deletions of the private [destroyAllSessionsByUserId] are not
    modelled: it is taken as one operation of the host. *)
Class Host (W UserDto Time : Type) := {
  queries_getUserByUsername : string → W → Res (option User) * W;
  queries_getUserById : Z → W → Res (option User) * W;
  queries_getUserDtoById : Z → W → Res (option UserDto) * W;
  queries_getOperators : W → Res (list User) * W;
  queries_getFirstOperator : W → Res (option User) * W;
  queries_updateUser : Z → PartialUser → W → Res (option User) * W;
  queries_createUser : NewUser → W → Res (option User) * W;
  argon2_verify : string → string → W → Res bool * W;
  argon2_hash : string → W → Res string * W;
  cache_set : string → string → W → Res () * W;
  cache_get : string → W → Res (option string) * W;
  cache_del : string → W → Res () * W;
  sessionManager_generateSessionId : string → W → Res string * W;
  sessionManager_setSession : string → string → W → Res () * W;
  uuid_v4 : W → Res string * W;
  encryption_decrypt : string → string → W → Res string * W;
  encryption_encrypt : string → string → W → Res string * W;
  totp_check : string → string → W → Res bool * W;
  totp_generateSecret : W → Res string * W;
  fs_pathExists : string → W → Res bool * W;
  fs_readFile : string → W → Res string * W;
  fs_unlink : string → W → Res () * W;
  date_now : W → Res Time * W;
  host_destroyAllSessionsByUserId : Z → W → Res () * W;
  config_demoMode : W → bool
}.

Section Service.
Context {W UserDto Time : Type} `{!Host W UserDto Time}.
(** The runtime and library functions without effect: [n.toString()],
    [Number(s)], [s.length] in UTF-16 code units, [s.trim()],
    [s.toLowerCase()], [validator.isEmail], [getLocaleFromString],
    [TotpAuthenticator.keyuri], and the test
    [Number(timestamp) + 15 * 60 > now / 1000] on floating-point
    numbers. *)
Context (toString : Z → string) (Number : string → Z).
Context (length16 : string → nat) (trim toLowerCase : string → string).
Context (isEmail : string → bool) (getLocaleFromString : option string → string).
Context (keyuri : string → string → string → string).
Context (request_pending : string → Time → bool).
(** [DATA_DIR] of the constants. *)
Context (DATA_DIR : string).

Record State := { world : W; calls : list Call }.

Definition M (A : Type) : Type := State → Res A * State.

#[export] Instance M_ret : MRet M := λ A a s, (Ok a, s).
#[export] Instance M_bind : MBind M := λ A B f m s,
  match m s with
  | (Ok a, s') => f a s'
  | (Throw e, s') => (Throw e, s')
  end.

Definition throw {A} (e : Exn) : M A := λ s, (Throw e, s).

Definition try_catch {A} (body : M A) (handler : Exn → M A) : M A :=
  λ s,
    match body s with
    | (Ok a, s') => (Ok a, s')
    | (Throw e, s') => handler e s'
    end.

Definition call {A} (c : Call) (f : W → Res A * W) : M A :=
  λ s,
    let '(r, w') := f (world s) in
    (r, {| world := w'; calls := calls s ++ [c] |}).

(** [TipiConfig.getConfig().demoMode]. *)
Definition demoMode : M bool := λ s, (Ok (config_demoMode (world s)), s).

Definition getUserByUsername (name : string) : M (option User) :=
  call (GetUserByUsername name) (queries_getUserByUsername name).
Definition getUserById (userId : Z) : M (option User) :=
  call (GetUserById userId) (queries_getUserById userId).
Definition getUserDtoById (userId : Z) : M (option UserDto) :=
  call (GetUserDtoById userId) (queries_getUserDtoById userId).
Definition getOperators : M (list User) :=
  call GetOperators queries_getOperators.
Definition getFirstOperator : M (option User) :=
  call GetFirstOperator queries_getFirstOperator.
Definition updateUser (userId : Z) (data : PartialUser) : M (option User) :=
  call (UpdateUser userId data) (queries_updateUser userId data).
Definition createUser (data : NewUser) : M (option User) :=
  call (CreateUser data) (queries_createUser data).
Definition verify (hash plain : string) : M bool :=
  call (Argon2Verify hash plain) (argon2_verify hash plain).
Definition hash (plain : string) : M string :=
  call (Argon2Hash plain) (argon2_hash plain).
Definition cacheSet (key value : string) : M () :=
  call (CacheSet key value) (cache_set key value).
Definition cacheGet (key : string) : M (option string) :=
  call (CacheGet key) (cache_get key).
Definition cacheDel (key : string) : M () :=
  call (CacheDel key) (cache_del key).
Definition generateSessionId (prefix : string) : M string :=
  call (GenerateSessionId prefix) (sessionManager_generateSessionId prefix).
Definition setSession (session userId : string) : M () :=
  call (SetSession session userId) (sessionManager_setSession session userId).
Definition uuidv4 : M string := call Uuidv4 uuid_v4.
Definition decrypt (data salt : string) : M string :=
  call (Decrypt data salt) (encryption_decrypt data salt).
Definition encrypt (data salt : string) : M string :=
  call (Encrypt data salt) (encryption_encrypt data salt).
Definition totpCheck (code secret : string) : M bool :=
  call (TotpCheck code secret) (totp_check code secret).
Definition generateSecret : M string :=
  call TotpGenerateSecret totp_generateSecret.
Definition pathExists (p : string) : M bool :=
  call (PathExists p) (fs_pathExists p).
Definition readFile (p : string) : M string :=
  call (ReadFile p) (fs_readFile p).
Definition unlink (p : string) : M () :=
  call (Unlink p) (fs_unlink p).
Definition now : M Time := call DateNow date_now.
Definition destroyAllSessionsByUserId (userId : Z) : M () :=
  call (DestroyAllSessionsByUserId userId) (host_destroyAllSessionsByUserId userId).

(** [AuthService.login]. *)
Definition login (input : UsernamePasswordInput) : M LoginResult :=
  user ← getUserByUsername (input_username input);
  match user with
  | None => throw (translated "AUTH_ERROR_USER_NOT_FOUND")
  | Some user =>
      isPasswordValid ← verify (password user) (input_password input);
      if negb isPasswordValid then
        throw (translated "AUTH_ERROR_INVALID_CREDENTIALS")
      else if totpEnabled user then
        totpSessionId ← generateSessionId "otp";
        _ ← cacheSet totpSessionId (toString (id user));
        mret {| sessionId := None; totpSessionId := Some totpSessionId |}
      else
        sessionId ← uuidv4;
        _ ← setSession sessionId (toString (id user));
        mret {| sessionId := Some sessionId; totpSessionId := None |}
  end.

(** [AuthService.verifyTotp]. *)
Definition verifyTotp (totpSessionId totpCode : string) : M bool :=
  userId ← cacheGet totpSessionId;
  if falsy userId then
    throw (translated "AUTH_ERROR_TOTP_SESSION_NOT_FOUND")
  else
    user ← getUserById (Number (default "" userId));
    match user with
    | None => throw (translated "AUTH_ERROR_USER_NOT_FOUND")
    | Some user =>
        if negb (totpEnabled user) || falsy (totpSecret user) || falsy (salt user)
        then throw (translated "AUTH_ERROR_TOTP_NOT_ENABLED")
        else
          totpSecret ← decrypt (default "" (totpSecret user)) (default "" (salt user));
          isValid ← totpCheck totpCode totpSecret;
          if negb isValid then
            throw (translated "AUTH_ERROR_TOTP_INVALID_CODE")
          else
            sessionId ← uuidv4;
            _ ← setSession sessionId (toString (id user));
            mret true
    end.

(** [AuthService.getTotpUri]; the result is [{ uri, key }]. *)
Definition getTotpUri (userId : Z) (pass : string) : M (string * string) :=
  demo ← demoMode;
  if demo : bool then throw (translated "SERVER_ERROR_NOT_ALLOWED_IN_DEMO")
  else
    user ← getUserById userId;
    match user with
    | None => throw (translated "AUTH_ERROR_USER_NOT_FOUND")
    | Some user =>
        isPasswordValid ← verify (password user) pass;
        if negb isPasswordValid then
          throw (translated "AUTH_ERROR_INVALID_PASSWORD")
        else if totpEnabled user then
          throw (translated "AUTH_ERROR_TOTP_ALREADY_ENABLED")
        else
          newTotpSecret ← generateSecret;
          salt ← (if falsy (salt user) then generateSessionId ""
                  else mret (default "" (salt user)));
          encryptedTotpSecret ← encrypt newTotpSecret salt;
          _ ← updateUser userId
                {| set_username := None; set_password := None;
                   set_totpEnabled := None;
                   set_totpSecret := Some (Some encryptedTotpSecret);
                   set_salt := Some salt |};
          mret (keyuri (username user) "Runtipi" newTotpSecret, newTotpSecret)
    end.

(** [AuthService.setupTotp]. *)
Definition setupTotp (userId : Z) (totpCode : string) : M bool :=
  demo ← demoMode;
  if demo : bool then throw (translated "SERVER_ERROR_NOT_ALLOWED_IN_DEMO")
  else
    user ← getUserById userId;
    match user with
    | None => throw (translated "AUTH_ERROR_USER_NOT_FOUND")
    | Some user =>
        if totpEnabled user || falsy (totpSecret user) || falsy (salt user)
        then throw (translated "AUTH_ERROR_TOTP_ALREADY_ENABLED")
        else
          totpSecret ← decrypt (default "" (totpSecret user)) (default "" (salt user));
          isValid ← totpCheck totpCode totpSecret;
          if negb isValid then
            throw (translated "AUTH_ERROR_TOTP_INVALID_CODE")
          else
            _ ← updateUser userId
                  {| set_username := None; set_password := None;
                     set_totpEnabled := Some true;
                     set_totpSecret := None; set_salt := None |};
            mret true
    end.

(** [AuthService.disableTotp]. *)
Definition disableTotp (userId : Z) (pass : string) : M bool :=
  user ← getUserById userId;
  match user with
  | None => throw (translated "AUTH_ERROR_USER_NOT_FOUND")
  | Some user =>
      if negb (totpEnabled user) then
        throw (translated "AUTH_ERROR_TOTP_NOT_ENABLED")
      else
        isPasswordValid ← verify (password user) pass;
        if negb isPasswordValid then
          throw (translated "AUTH_ERROR_INVALID_PASSWORD")
        else
          _ ← updateUser userId
                {| set_username := None; set_password := None;
                   set_totpEnabled := Some false;
                   set_totpSecret := Some None; set_salt := None |};
          mret true
  end.

(** [AuthService.register]. *)
Definition register (input : UsernamePasswordInput) : M bool :=
  operators ← getOperators;
  if bool_decide (0 < length operators) then
    throw (translated "AUTH_ERROR_ADMIN_ALREADY_EXISTS")
  else
    let email := toLowerCase (trim (input_username input)) in
    if bool_decide (input_username input = "")
       || bool_decide (input_password input = "")
    then throw (translated "AUTH_ERROR_MISSING_EMAIL_OR_PASSWORD")
    else if bool_decide (length16 (input_username input) < 3) || negb (isEmail email)
    then throw (translated "AUTH_ERROR_INVALID_USERNAME")
    else
      user ← getUserByUsername email;
      match user with
      | Some _ => throw (translated "AUTH_ERROR_USER_ALREADY_EXISTS")
      | None =>
          hashed ← hash (input_password input);
          newUser ← createUser
            {| new_username := email; new_password := hashed;
               new_operator := true;
               new_locale := getLocaleFromString (input_locale input) |};
          match newUser with
          | None => throw (translated "AUTH_ERROR_ERROR_CREATING_USER")
          | Some newUser =>
              sessionId ← uuidv4;
              _ ← setSession sessionId (toString (id newUser));
              mret true
          end
      end.

(** [AuthService.me]; [!userId] holds for [undefined] and for [0]. *)
Definition me (userId : option Z) : M (option UserDto) :=
  match userId with
  | None => mret None
  | Some userId =>
      if bool_decide (userId = 0%Z) then mret None
      else getUserDtoById userId
  end.

(** [AuthService.logout]. *)
Definition logout (session : string) : M bool :=
  _ ← cacheDel ("session:" +:+ session);
  mret true.

(** [AuthService.isConfigured]. *)
Definition isConfigured : M bool :=
  operators ← getOperators;
  mret (bool_decide (0 < length operators)).

Definition password_change_request : string :=
  join [DATA_DIR; "state"; "password-change-request"].

(** [AuthService.checkPasswordChangeRequest]. *)
Definition checkPasswordChangeRequest : M bool :=
  try_catch
    (found ← pathExists password_change_request;
     if found : bool then
       timestamp ← readFile password_change_request;
       time ← now;
       mret (request_pending timestamp time)
     else mret false)
    (λ _, mret false).

(** [AuthService.cancelPasswordChangeRequest]. *)
Definition cancelPasswordChangeRequest : M bool :=
  found ← pathExists password_change_request;
  _ ← (if found : bool then unlink password_change_request else mret ());
  mret true.

(** [AuthService.changeOperatorPassword]; the result is [{ email }]. *)
Definition changeOperatorPassword (newPassword : string) : M string :=
  isRequested ← checkPasswordChangeRequest;
  if negb isRequested then
    throw (translated "AUTH_ERROR_NO_CHANGE_PASSWORD_REQUEST")
  else
    user ← getFirstOperator;
    match user with
    | None => throw (translated "AUTH_ERROR_OPERATOR_NOT_FOUND")
    | Some user =>
        hashed ← hash newPassword;
        _ ← updateUser (id user)
              {| set_username := None; set_password := Some hashed;
                 set_totpEnabled := Some false;
                 set_totpSecret := Some None; set_salt := None |};
        _ ← unlink password_change_request;
        _ ← destroyAllSessionsByUserId (id user);
        mret (username user)
    end.

(** [AuthService.changePassword]. *)
Definition changePassword (currentPassword newPassword : string) (userId : Z) : M bool :=
  demo ← demoMode;
  if demo : bool then throw (translated "SERVER_ERROR_NOT_ALLOWED_IN_DEMO")
  else
    user ← getUserById userId;
    match user with
    | None => throw (translated "AUTH_ERROR_USER_NOT_FOUND")
    | Some user =>
        valid ← verify (password user) currentPassword;
        if negb valid then throw (translated "AUTH_ERROR_INVALID_PASSWORD")
        else if bool_decide (length16 newPassword < 8) then
          throw (translated "AUTH_ERROR_INVALID_PASSWORD_LENGTH")
        else
          hashed ← hash newPassword;
          _ ← updateUser (id user)
                {| set_username := None; set_password := Some hashed;
                   set_totpEnabled := None;
                   set_totpSecret := None; set_salt := None |};
          _ ← destroyAllSessionsByUserId (id user);
          mret true
    end.

(** [AuthService.changeUsername]. *)
Definition changeUsername (newUsername pass : string) (userId : Z) : M bool :=
  demo ← demoMode;
  if demo : bool then throw (translated "SERVER_ERROR_NOT_ALLOWED_IN_DEMO")
  else
    user ← getUserById userId;
    match user with
    | None => throw (translated "AUTH_ERROR_USER_NOT_FOUND")
    | Some user =>
        valid ← verify (password user) pass;
        if negb valid then throw (translated "AUTH_ERROR_INVALID_PASSWORD")
        else
          let email := toLowerCase (trim newUsername) in
          if negb (isEmail email) then
            throw (translated "AUTH_ERROR_INVALID_USERNAME")
          else
            existingUser ← getUserByUsername email;
            match existingUser with
            | Some _ => throw (translated "AUTH_ERROR_USER_ALREADY_EXISTS")
            | None =>
                _ ← updateUser (id user)
                      {| set_username := Some email; set_password := None;
                         set_totpEnabled := None;
                         set_totpSecret := None; set_salt := None |};
                _ ← destroyAllSessionsByUserId (id user);
                mret true
            end
    end.

End Service.

(** The user updates, the users created and the sessions set among the
    calls of a journal. *)
Definition updates (cs : list Call) : list (Z * PartialUser) :=
  omap (λ c, match c with UpdateUser i d => Some (i, d) | _ => None end) cs.

Definition created (cs : list Call) : list NewUser :=
  omap (λ c, match c with CreateUser d => Some d | _ => None end) cs.

Definition sessions (cs : list Call) : list (string * string) :=
  omap (λ c, match c with SetSession i u => Some (i, u) | _ => None end) cs.

Definition cached (cs : list Call) : list (string * string) :=
  omap (λ c, match c with CacheSet k v => Some (k, v) | _ => None end) cs.

(** *** A host to run the service on

    Users in a list, a cache, a filesystem holding text files, and a
    demo flag; hashes are the plain text after ["argon2:"], ids and
    secrets are fixed. *)
Module Toy.

Record t := {
  users : list User;
  cache : gmap string string;
  files : gmap string string;
  demo : bool
}.

Definition with_users (us : list User) (h : t) : t :=
  {| users := us; cache := cache h; files := files h; demo := demo h |}.

Definition with_cache (c : gmap string string) (h : t) : t :=
  {| users := users h; cache := c; files := files h; demo := demo h |}.

Definition with_files (f : gmap string string) (h : t) : t :=
  {| users := users h; cache := cache h; files := f; demo := demo h |}.

Definition patch_user (data : PartialUser) (u : User) : User :=
  {| id := id u;
     username := default (username u) (set_username data);
     password := default (password u) (set_password data);
     totpEnabled := default (totpEnabled u) (set_totpEnabled data);
     totpSecret := default (totpSecret u) (set_totpSecret data);
     salt := match set_salt data with Some x => Some x | None => salt u end |}.

Definition by_id (i : Z) (h : t) : option User :=
  head (filter (λ u, id u = i) (users h)).

Definition by_name (name : string) (h : t) : option User :=
  head (filter (λ u, username u = name) (users h)).

Definition read_file (p : string) (h : t) : Res string * t :=
  match files h !! p with
  | Some text => (Ok text, h)
  | None => (Throw (Error ("ENOENT: " +:+ p)), h)
  end.

#[export] Instance host : Host t User Z := {|
  queries_getUserByUsername name h := (Ok (by_name name h), h);
  queries_getUserById i h := (Ok (by_id i h), h);
  queries_getUserDtoById i h := (Ok (by_id i h), h);
  queries_getOperators h := (Ok (users h), h);
  queries_getFirstOperator h := (Ok (head (users h)), h);
  queries_updateUser i data h :=
    (Ok (patch_user data <$> by_id i h),
     with_users ((λ u, if decide (id u = i) then patch_user data u else u)
                   <$> users h) h);
  queries_createUser data h :=
    let u := {| id := Z.of_nat (S (length (users h)));
                username := new_username data; password := new_password data;
                totpEnabled := false; totpSecret := None; salt := None |} in
    (Ok (Some u), with_users (users h ++ [u]) h);
  argon2_verify hashed plain h := (Ok (bool_decide (hashed = "argon2:" +:+ plain)), h);
  argon2_hash plain h := (Ok ("argon2:" +:+ plain), h);
  cache_set key value h := (Ok (), with_cache (<[key := value]> (cache h)) h);
  cache_get key h := (Ok (cache h !! key), h);
  cache_del key h := (Ok (), with_cache (delete key (cache h)) h);
  sessionManager_generateSessionId prefix h := (Ok (prefix +:+ "-1"), h);
  sessionManager_setSession session user h :=
    (Ok (), with_cache (<["session:" +:+ session := user]> (cache h)) h);
  uuid_v4 h := (Ok "7c9e6679", h);
  encryption_decrypt data key h := (Ok data, h);
  encryption_encrypt data key h := (Ok data, h);
  totp_check code secret h := (Ok (bool_decide (code = secret)), h);
  totp_generateSecret h := (Ok "SECRET", h);
  fs_pathExists p h := (Ok (bool_decide (is_Some (files h !! p))), h);
  fs_readFile := read_file;
  fs_unlink p h := (Ok (), with_files (delete p (files h)) h);
  date_now h := (Ok 1000%Z, h);
  host_destroyAllSessionsByUserId i h := (Ok (), h);
  config_demoMode := demo
|}.

Definition admin : User :=
  {| id := 1; username := "admin@example.com"; password := "argon2:hunter22";
     totpEnabled := false; totpSecret := None; salt := None |}.

Definition admin_with_totp : User :=
  {| id := 1; username := "admin@example.com"; password := "argon2:hunter22";
     totpEnabled := true; totpSecret := Some "SECRET"; salt := Some "salt" |}.

Definition with_user (u : User) (demo : bool) : t :=
  {| users := [u]; cache := ∅; files := ∅; demo := demo |}.

Definition fresh : t := {| users := []; cache := ∅; files := ∅; demo := false |}.

Definition start (h : t) : State := {| world := h; calls := [] |}.

(** Ids print as [user-n]; text is taken as it is, and every text with
    an at sign is an email. *)
Definition show_id (i : Z) : string :=
  "user-" +:+ match i with 1%Z => "1" | 2%Z => "2" | _ => "n" end.
Definition read_id (s : string) : Z :=
  if bool_decide (s = "user-1") then 1 else if bool_decide (s = "user-2") then 2 else 0.
Definition same (s : string) : string := s.
Definition has_at (s : string) : bool := contains "@" s.
Definition locale_of (l : option string) : string := default "en" l.
Definition uri_of (name issuer secret : string) : string :=
  "otpauth://totp/" +:+ issuer +:+ ":" +:+ name +:+ "?secret=" +:+ secret.
Definition never_pending (timestamp : string) (time : Z) : bool := false.
Definition always_pending (timestamp : string) (time : Z) : bool := true.

(** A user who asked for a TOTP secret and has not confirmed it yet. *)
Definition admin_setting_up_totp : User :=
  {| id := 1; username := "admin@example.com"; password := "argon2:hunter22";
     totpEnabled := false; totpSecret := Some "SECRET"; salt := Some "salt" |}.

(** A host where the TOTP session [otp-1] of user 1 is open. *)
Definition with_totp_session : t :=
  {| users := [admin_with_totp]; cache := {[ "otp-1" := "user-1" ]};
     files := ∅; demo := false |}.

(** A host where a password change has been requested. *)
Definition with_request : t :=
  {| users := [admin_with_totp]; cache := ∅;
     files := {[ "/data/state/password-change-request" := "1" ]};
     demo := false |}.

Definition admin_login : UsernamePasswordInput :=
  {| input_username := "admin@example.com"; input_password := "hunter22";
     input_locale := None |}.

End Toy.
End Auth.

(** * The restart command against the lifecycle specification *)

Module RestartAppSpec.
Import Js RestartApp.

Section Restart.
Context {Config Form : Type} (castAppConfig : Config → Form).
Implicit Types (w : World (Config:=Config) (Form:=Form)) (app : App (Config:=Config)).

Lemma updateApp_found w appId app data :
  apps w !! appId = Some app →
  updateApp appId data w =
    (Ok (Some (patch data app)),
     {| apps := <[appId := patch data app]> (apps w);
        trace := trace w ++ [UpdateApp appId data];
        pending := pending w |}).
Proof. intros Hget. unfold updateApp. by rewrite Hget. Qed.

Lemma status_of_insert appId app m tr pd :
  status_of (Form:=Form)
    {| apps := <[appId := app]> m; trace := tr; pending := pd |} appId
  = Some (status app).
Proof. unfold status_of; simpl. by rewrite lookup_insert_eq. Qed.

Lemma execute_found w appId app :
  apps w !! appId = Some app →
  execute castAppConfig appId w =
    (Ok (),
     {| apps := <[appId := patch (to_status restarting) app]> (apps w);
        trace := trace w ++
          [GetApp appId; UpdateApp appId (to_status restarting);
           DispatchEventAsync (restart_event appId (castAppConfig (config app)))];
        pending := pending w ++ [SendEventAwait appId] |}).
Proof.
  intros Hget.
  unfold execute, mbind, M_bind, getApp; simpl. rewrite Hget.
  rewrite (updateApp_found _ _ app) by done. simpl.
  unfold void, mbind, M_bind, sendEvent, schedule, park, emit; simpl.
  by rewrite <- !app_assoc.
Qed.

Lemma sendEvent_resume_found w appId app r :
  apps w !! appId = Some app →
  sendEvent_resume appId r w =
    (Ok (),
     {| apps := <[appId := patch (to_status (if success r then running else stopped)) app]> (apps w);
        trace := trace w ++
          (if success r then [UpdateApp appId (to_status running)]
           else [LoggerError ("Failed to restart app " +:+ appId +:+ ": " +:+ stdout r);
                 UpdateApp appId (to_status stopped)]);
        pending := pending w |}).
Proof.
  intros Hget. unfold sendEvent_resume. destruct (success r).
  - unfold mbind, M_bind. by rewrite (updateApp_found _ _ app).
  - unfold mbind, M_bind, logger_error; simpl.
    rewrite (updateApp_found _ _ app) by done. simpl.
    by rewrite <- app_assoc.
Qed.

Lemma dispatches_app (tr1 tr2 : list (Event (Config:=Config) (Form:=Form))) :
  dispatches (tr1 ++ tr2) = dispatches tr1 ++ dispatches tr2.
Proof. apply omap_app. Qed.

Lemma writes_app (tr1 tr2 : list (Event (Config:=Config) (Form:=Form))) :
  writes (tr1 ++ tr2) = writes tr1 ++ writes tr2.
Proof. apply omap_app. Qed.


(** C2: once the dispatcher has answered, the rest of [sendEvent] ends
    normally (the engine's failure is not thrown), the status is [running]
    after a success and [stopped] after a failure, never [restarting], and
    a failure is logged with the captured output before [stopped] is
    written. *)
Theorem sendEvent_terminal_status w appId app r :
  apps w !! appId = Some app →
  ∃ w',
    sendEvent_resume appId r w = (Ok (), w')
    ∧ status_of w' appId = Some (if success r then running else stopped)
    ∧ status_of w' appId ≠ Some restarting
    ∧ (∀ s, status_of w' appId = Some s → transitional s = false)
    ∧ (success r = false →
       trace w' = trace w ++
         [LoggerError ("Failed to restart app " +:+ appId +:+ ": " +:+ stdout r);
          UpdateApp appId (to_status stopped)]).
Proof.
  intros Hget. eexists. split; [by apply sendEvent_resume_found|].
  rewrite status_of_insert. cbn [trace].
  split; [by destruct (success r)|].
  split; [by destruct (success r)|].
  split.
  - intros s [= <-]. by destruct (success r).
  - by intros ->.
Qed.

(** C3: for an installed app, [execute] writes [restarting], then calls
    the dispatcher, and returns with the rest of [sendEvent] still parked:
    the state at return does not depend on any engine result and has
    status [restarting].  Whatever result is delivered later, the terminal
    status is written after it has arrived. *)
Theorem execute_returns_before_engine_result w appId app :
  apps w !! appId = Some app →
  ∃ w',
    execute castAppConfig appId w = (Ok (), w')
    ∧ trace w' = trace w ++
        [GetApp appId; UpdateApp appId (to_status restarting);
         DispatchEventAsync (restart_event appId (castAppConfig (config app)))]
    ∧ status_of w' appId = Some restarting
    ∧ pending w' = pending w ++ [SendEventAwait appId]
    ∧ ∀ r, ∃ w'',
        deliver (SendEventAwait appId) r w' = (Ok (), w'')
        ∧ trace w'' = trace w' ++
            Settled r ::
            (if success r then [UpdateApp appId (to_status running)]
             else [LoggerError ("Failed to restart app " +:+ appId +:+ ": " +:+ stdout r);
                   UpdateApp appId (to_status stopped)])
        ∧ status_of w'' appId = Some (if success r then running else stopped).
Proof.
  intros Hget. eexists. split; [by apply execute_found|].
  split; [done|]. split; [apply status_of_insert|]. split; [done|].
  intros r. eexists. split.
  - unfold deliver.
    apply (sendEvent_resume_found _ _ (patch (to_status restarting) app)).
    simpl. apply lookup_insert_eq.
  - split.
    + simpl. by rewrite <- app_assoc.
    + rewrite status_of_insert. by destruct (success r).
Qed.

(** C4: without a record for the id, [execute] throws the app-not-found
    error; the table is as before, and neither a status write nor a call
    to the dispatcher has been made, nor is anything parked. *)
Theorem execute_app_not_found w appId :
  apps w !! appId = None →
  ∃ w',
    execute castAppConfig appId w =
      (Throw (TranslatedError "APP_ERROR_APP_NOT_FOUND" appId), w')
    ∧ apps w' = apps w
    ∧ writes (trace w') = writes (trace w)
    ∧ dispatches (trace w') = dispatches (trace w)
    ∧ pending w' = pending w.
Proof.
  intros Hget. eexists. split.
  - unfold execute, mbind, M_bind, getApp; simpl. by rewrite Hget.
  - cbn [apps trace pending emit]. rewrite writes_app, dispatches_app. simpl.
    by rewrite !app_nil_r.
Qed.

End Restart.



Lemma sendEvent_terminal_status_witness :
  ∃ w',
    sendEvent_resume "store_nginx" {| success := false; stdout := "exit 1" |}
      (one_app restarting) = (Ok (), w')
    ∧ status_of w' "store_nginx" = Some stopped
    ∧ status_of w' "store_nginx" ≠ Some restarting
    ∧ (∀ s, status_of w' "store_nginx" = Some s → transitional s = false)
    ∧ (false = false →
       trace w' =
         [LoggerError "Failed to restart app store_nginx: exit 1";
          UpdateApp "store_nginx" (to_status stopped)]).
Proof.
  apply (sendEvent_terminal_status (one_app restarting) "store_nginx"
           (nginx restarting) {| success := false; stdout := "exit 1" |}).
  reflexivity.
Defined.

Lemma execute_returns_before_engine_result_witness :
  ∃ w',
    execute keep_config "store_nginx" (one_app running) = (Ok (), w')
    ∧ trace w' =
        [GetApp "store_nginx"; UpdateApp "store_nginx" (to_status restarting);
         DispatchEventAsync (restart_event "store_nginx" "{}")]
    ∧ status_of w' "store_nginx" = Some restarting
    ∧ pending w' = [SendEventAwait "store_nginx"]
    ∧ ∀ r, ∃ w'',
        deliver (SendEventAwait "store_nginx") r w' = (Ok (), w'')
        ∧ trace w'' = trace w' ++
            Settled r ::
            (if success r then [UpdateApp "store_nginx" (to_status running)]
             else [LoggerError ("Failed to restart app " +:+ "store_nginx" +:+ ": " +:+ stdout r);
                   UpdateApp "store_nginx" (to_status stopped)])
        ∧ status_of w'' "store_nginx" = Some (if success r then running else stopped).
Proof.
  apply (execute_returns_before_engine_result keep_config (one_app running)
           "store_nginx" (nginx running)).
  reflexivity.
Defined.

Lemma execute_app_not_found_witness :
  ∃ w',
    execute keep_config "store_ghost" empty_table =
      (Throw (TranslatedError "APP_ERROR_APP_NOT_FOUND" "store_ghost"), w')
    ∧ apps w' = ∅
    ∧ writes (trace w') = []
    ∧ dispatches (trace w') = []
    ∧ pending w' = [].
Proof.
  apply (execute_app_not_found keep_config empty_table "store_ghost").
  reflexivity.
Defined.

End RestartAppSpec.

(** * Facts about strings and paths *)

Module PathFacts.
Import Js.

Lemma append_nil (s : string) : "" +:+ s = s.
Proof. reflexivity. Qed.

Lemma append_cons (c : ascii) (s t : string) :
  String c s +:+ t = String c (s +:+ t).
Proof. reflexivity. Qed.

Lemma append_assoc (a b c : string) : (a +:+ b) +:+ c = a +:+ (b +:+ c).
Proof.
  induction a as [|x a IH]; [done|].
  rewrite !append_cons. by rewrite IH.
Qed.

Lemma append_empty_r (a b : string) : a +:+ b = "" → b = "".
Proof. destruct a; [done|]. rewrite append_cons. discriminate. Qed.

Lemma split_not_nil (sep : ascii) (s : string) : split sep s ≠ [].
Proof.
  destruct s as [|c s]; simpl; [done|].
  case_decide; [done|]. by destruct (split sep s).
Qed.

Lemma split_without_sep (sep : ascii) (s : string) :
  contains sep s = false → split sep s = [s].
Proof.
  induction s as [|c s IH]; simpl; [done|].
  intros [Hc Hs]%orb_false_elim.
  apply bool_decide_eq_false in Hc.
  rewrite decide_False by done. by rewrite IH.
Qed.

Lemma split_append (sep : ascii) (a b : string) :
  split sep (a +:+ String sep b) = split sep a ++ split sep b.
Proof.
  induction a as [|c a IH].
  - rewrite append_nil. simpl. by rewrite decide_True.
  - rewrite append_cons. simpl. case_decide; rewrite IH; [done|].
    pose proof (split_not_nil sep a). by destruct (split sep a).
Qed.

Lemma trailingSeparator_append (a b : string) :
  b ≠ "" → trailingSeparator (a +:+ b) = trailingSeparator b.
Proof.
  intros Hb. induction a as [|c a IH]; [done|].
  rewrite append_cons. simpl. rewrite IH.
  destruct (a +:+ b) eqn:Hab; [|done].
  by apply append_empty_r in Hab.
Qed.

Lemma trailingSeparator_without_slash (n : string) :
  contains "/" n = false → trailingSeparator n = false.
Proof.
  induction n as [|c n IH]; simpl; [done|].
  intros [Hc Hn]%orb_false_elim. destruct n; [done|]. by apply IH.
Qed.

Lemma isAbsolute_append (a b : string) :
  a ≠ "" → isAbsolute (a +:+ b) = isAbsolute a.
Proof. by destruct a. Qed.

Lemma concat_snoc (sep : string) (l : list string) (n : string) :
  String.concat sep (l ++ [n]) =
    match l with
    | [] => n
    | _ => String.concat sep l +:+ sep +:+ n
    end.
Proof.
  induction l as [|x l IH]; [done|].
  change ((x :: l) ++ [n]) with (x :: (l ++ [n])).
  destruct l as [|y l]; [done|].
  change (String.concat sep (x :: (y :: l) ++ [n]))
    with (x +:+ sep +:+ String.concat sep ((y :: l) ++ [n])).
  rewrite IH.
  change (String.concat sep (x :: y :: l))
    with (x +:+ sep +:+ String.concat sep (y :: l)).
  by rewrite !append_assoc.
Qed.

Lemma normalizeSegment_file_name (allow : bool) (res : list string) (n : string) :
  file_name n = true → normalizeSegment allow res n = n :: res.
Proof.
  unfold file_name, normalizeSegment.
  intros [[[_ H1]%andb_prop H2]%andb_prop H3]%andb_prop.
  apply negb_true_iff in H1, H2, H3. by rewrite H1, H2, H3.
Qed.

Lemma file_name_facts (n : string) :
  file_name n = true → contains "/" n = false ∧ n ≠ "".
Proof.
  unfold file_name.
  intros [[[H0 H1]%andb_prop _]%andb_prop _]%andb_prop.
  apply negb_true_iff in H0, H1. apply bool_decide_eq_false in H1. done.
Qed.

(** Normalizing a path that ends in a file name keeps the name at the
    end, after a prefix set by the rest of the path. *)
Lemma normalize_file_name (n : string) :
  file_name n = true → normalize n = n.
Proof.
  intros Hn. destruct (file_name_facts n Hn) as [Hslash Hne].
  unfold normalize, normalizeString.
  rewrite bool_decide_eq_false_2 by done.
  rewrite split_without_sep by done. simpl.
  rewrite normalizeSegment_file_name by done. simpl.
  rewrite bool_decide_eq_false_2 by done.
  rewrite trailingSeparator_without_slash by done.
  destruct n as [|c n]; [done|]. simpl in *.
  apply orb_false_elim in Hslash as [Hc _]. by rewrite Hc.
Qed.

Lemma normalizeString_file_name (dir n : string) (allow : bool) :
  file_name n = true →
  normalizeString (dir +:+ String "/" n) allow =
    match rev (fold_left (normalizeSegment allow) (split "/" dir) []) with
    | [] => n
    | kept => String.concat "/" kept +:+ "/" +:+ n
    end.
Proof.
  intros Hn. destruct (file_name_facts n Hn) as [Hslash Hne].
  unfold normalizeString.
  rewrite split_append, fold_left_app, split_without_sep by done.
  cbn [fold_left]. rewrite normalizeSegment_file_name by done.
  cbn [rev]. rewrite concat_snoc.
  by destruct (rev _).
Qed.

Lemma join_file_name (dir n : string) :
  file_name n = true → join [dir; n] = dirname_slash dir +:+ n.
Proof.
  intros Hn. destruct (file_name_facts n Hn) as [Hslash Hne].
  unfold join, dirname_slash.
  rewrite filter_cons. destruct (decide (dir = "")) as [->|Hdir].
  - rewrite decide_False by (intros H; by apply H).
    rewrite filter_cons, decide_True by done. simpl.
    by apply normalize_file_name.
  - rewrite decide_True by done.
    rewrite filter_cons, decide_True by done.
    rewrite bool_decide_eq_false_2 by done.
    change (String.concat "/" (dir :: n :: filter _ []))
      with (dir +:+ String "/" n).
    unfold normalize.
    rewrite bool_decide_eq_false_2
      by (intros H%append_empty_r; discriminate).
    rewrite isAbsolute_append by done.
    rewrite normalizeString_file_name by done.
    rewrite trailingSeparator_append by done.
    assert (trailingSeparator (String "/" n) = false) as ->.
    { destruct n as [|c n]; [done|].
      by apply (trailingSeparator_without_slash (String c n)). }
    set (kept := rev _).
    rewrite bool_decide_eq_false_2.
    + destruct (isAbsolute dir), kept; by rewrite ?append_assoc.
    + destruct kept; [done|]. intros H.
      rewrite <- append_assoc in H. by apply append_empty_r in H.
Qed.

Lemma join_file_name_inj (dir n1 n2 : string) :
  file_name n1 = true → file_name n2 = true →
  join [dir; n1] = join [dir; n2] → n1 = n2.
Proof.
  intros H1 H2. rewrite !join_file_name by done.
  apply String.app_inj.
Qed.

End PathFacts.

(** * The files manager against the lifecycle specification *)

Module AppFilesManagerSpec.
Import Js Backend PathFacts.

(** Runs a method symbolically: the monad is unfolded and every answer
    of a collaborator is split into its cases. *)
Ltac unfold_monad :=
  unfold ignore, armComposeExists in *;
  unfold pathExists, readTextFile, readJsonFile, writeTextFile, removeDirectory,
    createDirectory, execAsync in *;
  unfold try_catch, lift, log, call, mbind, M_bind, mret, M_ret in *.

Ltac answer :=
  match goal with
  | |- context [fs_pathExists ?p ?w] =>
      destruct (fs_pathExists p w) as [[[|]|?] ?] eqn:?
  | |- context [fs_readTextFile ?p ?w] =>
      destruct (fs_readTextFile p w) as [[?|?] ?] eqn:?
  | |- context [fs_readJsonFile ?p ?w] =>
      destruct (fs_readJsonFile p w) as [[?|?] ?] eqn:?
  | |- context [fs_writeTextFile ?p ?d ?w] =>
      destruct (fs_writeTextFile p d w) as [[?|?] ?] eqn:?
  | |- context [fs_removeDirectory ?p ?w] =>
      destruct (fs_removeDirectory p w) as [[?|?] ?] eqn:?
  | |- context [fs_createDirectory ?p ?w] =>
      destruct (fs_createDirectory p w) as [[?|?] ?] eqn:?
  | |- context [sh_execAsync ?c ?w] =>
      destruct (sh_execAsync c w) as [[?|?] ?] eqn:?
  end; cbn [world calls fst snd].

Ltac in_list :=
  solve [repeat first [apply list_elem_of_here | apply list_elem_of_further]].

Ltac in_resolved Hid :=
  unfold resolved; apply elem_of_app;
  first [right; in_list | left; rewrite Hid; in_list].

Ltac journal_addressed Hid :=
  cbn [calls snd];
  eexists; split;
    [rewrite <- ?app_assoc; try reflexivity; symmetry; apply app_nil_r|];
  cbn [app];
  repeat match goal with
    | |- Forall _ (_ :: _) => constructor
    | |- Forall _ [] => constructor
    end;
  cbn [addressed];
  first [ exact I
        | in_resolved Hid
        | eexists; split; [|reflexivity]; in_resolved Hid ].

Section Manager.
Context {W Json AppInfo : Type}.
Context `{!FilesystemService W Json, !Shell W}.
Context (JSON_parse : string → Res Json).
Context (safeParse : Json → AppInfo + string) (available : AppInfo → bool).
Context (cfg : Config).
Implicit Types (st : State (W:=W)) (op : Operation).

Abbreviation run := (run JSON_parse safeParse available cfg).

Lemma split_cut (sep : ascii) (s : string) :
  split sep s =
    match cut sep s with
    | Some (before, after) => before :: split sep after
    | None => [s]
    end.
Proof.
  induction s as [|c s IH]; simpl; [done|].
  case_decide; [done|]. rewrite IH.
  by destruct (cut sep s) as [[before after]|].
Qed.

(** What [getAppPaths] returns is made of the configured directories and
    of the store and id of the app id. *)
Lemma getAppPaths_Ok_store_and_id (appId : string) paths :
  getAppPaths cfg appId = Ok paths →
  ∃ store id,
    store_and_id appId = Some (store, id)
    ∧ paths =
        {| appDataDir :=
             join [Directories.appDataDir (directories cfg); store; id];
           appInstalledDir :=
             join [join [Directories.dataDir (directories cfg); "apps"]; store; id] |}.
Proof.
  unfold getAppPaths, store_and_id, getInstalledAppsFolder.
  rewrite split_cut.
  destruct (cut "_" appId) as [[store rest]|].
  - rewrite split_cut.
    destruct (cut "_" rest) as [[id more]|];
      cbn [lookup list_lookup falsy default];
      destruct (bool_decide (store = "") || bool_decide (_ = "")); [done| |done|];
      intros [= <-]; by eexists _, _.
  - cbn. by rewrite orb_true_r.
Qed.

Lemma run_addressed op appId st :
  ∃ new,
    calls (run op appId st).2 = calls st ++ new
    ∧ Forall (addressed cfg appId) new.
Proof.
  destruct (getAppPaths cfg appId) as [paths|e] eqn:Hp.
  - destruct (getAppPaths_Ok_store_and_id _ _ Hp) as (store & id & Hid & ->).
    destruct op; unfold Backend.run;
    unfold getInstalledAppInfo, getDockerComposeYaml, getDockerComposeJson,
      writeDockerComposeYml, deleteAppFolder, deleteAppDataDir,
      createAppDataDir, setAppDataDirPermissions, getAppEnv, writeAppEnv,
      getUserEnv, getUserComposeFile;
    unfold_monad; rewrite ?Hp;
    cbn [world calls fst snd appInstalledDir appDataDir];
    repeat answer;
    repeat match goal with
      | |- context [JSON_parse ?x] => destruct (JSON_parse x); cbn [world calls fst snd]
      | |- context [safeParse ?x] => destruct (safeParse x); cbn [world calls fst snd]
      | |- context [available ?x] => destruct (available x); cbn [world calls fst snd]
      | |- context [bool_decide ?P] => destruct (bool_decide P); cbn [world calls fst snd]
      end;
    repeat answer;
    journal_addressed Hid.
  - destruct op; unfold Backend.run;
    unfold getInstalledAppInfo, getDockerComposeYaml, getDockerComposeJson,
      writeDockerComposeYml, deleteAppFolder, deleteAppDataDir,
      createAppDataDir, setAppDataDirPermissions, getAppEnv, writeAppEnv,
      getUserEnv, getUserComposeFile;
    unfold_monad; rewrite ?Hp; cbn [world calls fst snd];
    repeat answer;
    journal_addressed Hp.
Qed.

Lemma run_same_targets op1 op2 appId st :
  same_method op1 op2 = true →
  omap target (calls (run op1 appId st).2)
  = omap target (calls (run op2 appId st).2).
Proof.
  destruct op1, op2; try discriminate; try reflexivity; intros _;
    unfold Backend.run, writeDockerComposeYml, writeAppEnv;
    unfold_monad;
    (destruct (getAppPaths cfg appId) as [paths|e]; [|done]);
    cbn [world calls fst snd];
    repeat answer;
    by rewrite !omap_app.
Qed.

(** C7, as the code has it: whatever the machine answers, every call a
    method of the files manager makes is on one of the paths
    [resolved cfg appId]: the folder of the store and id of the app id
    under [dataDir/apps], its folder under [appDataDir], six files
    of these, and the two files of the id under [dataDir/user-config];
    a shell command is [chmod] on one of them.  The list is a function of
    the configuration and of the app id, and of nothing else the caller
    passes.  Two calls of the same method for the same id from the same
    state touch the same paths, whatever text they write.  Which of the
    paths are touched is left to the method and to what the filesystem
    answers. *)
Theorem operations_addressed_by_app_id appId st :
  (∀ op, ∃ new,
      calls (run op appId st).2 = calls st ++ new
      ∧ Forall (addressed cfg appId) new)
  ∧ (∀ op1 op2,
      same_method op1 op2 = true →
      omap target (calls (run op1 appId st).2)
      = omap target (calls (run op2 appId st).2)).
Proof.
  split.
  - intros op. apply run_addressed.
  - intros op1 op2. apply run_same_targets.
Qed.

Lemma getAppPaths_invalid (s : string) :
  splits_in_two s = false →
  getAppPaths cfg s = Throw (Error ("Invalid namespaced app id: " +:+ s)).
Proof.
  unfold splits_in_two, getAppPaths. rewrite split_cut.
  destruct (cut "_" s) as [[store id]|].
  - intros [Hstore|Hid]%andb_false_iff.
    + apply negb_false_iff in Hstore.
      cbn [lookup list_lookup falsy]. by rewrite Hstore.
    + apply negb_false_iff, bool_decide_eq_true in Hid. subst id.
      cbn. by rewrite orb_true_r.
  - intros _. cbn. by rewrite orb_true_r.
Qed.

(** C8, as the code has it: for an id that does not split on its first
    underscore into two non-empty parts, [getAppPaths] throws the
    invalid-id error; every method that starts with [getAppPaths] throws
    it too, with nothing journaled and the machine as it was, and
    [getInstalledAppInfo] catches it and evaluates to [null], also without
    a call.  [getUserEnv] and [getUserComposeFile] never call
    [getAppPaths] and are not covered. *)
Theorem invalid_app_id_fails_before_filesystem (s : string) st :
  splits_in_two s = false →
  getAppPaths cfg s = Throw (Error ("Invalid namespaced app id: " +:+ s))
  ∧ (∀ op, throws_on_invalid_id op = true →
       run op s st = (Throw (Error ("Invalid namespaced app id: " +:+ s)), st))
  ∧ getInstalledAppInfo JSON_parse safeParse available cfg s st = (Ok InfoNull, st).
Proof.
  intros Hs%getAppPaths_invalid. split; [done|]. split.
  - intros op Hop.
    destruct op; try discriminate Hop;
      unfold Backend.run, getDockerComposeYaml, getDockerComposeJson,
        writeDockerComposeYml, deleteAppFolder, deleteAppDataDir,
        createAppDataDir, setAppDataDirPermissions, getAppEnv, writeAppEnv;
      unfold_monad; by rewrite Hs.
  - unfold getInstalledAppInfo. unfold_monad. by rewrite Hs.
Qed.

(** C9: for an app id that [getAppPaths] accepts, the files
    [docker-compose.arm64.yml] and [docker-compose.yml] of the installed
    folder differ, and [getDockerComposeYaml] returns the path of one of
    them.  On an architecture other than [arm64] it returns the second.
    On [arm64] it asks the filesystem whether the first exists: it
    returns the first when the answer is yes and the second when the
    answer is no, and throws what this question throws.  Once the path is
    chosen the method returns: its content is [null] when the chosen file
    does not exist, when asking so throws, and when reading it throws,
    and what was read otherwise. *)
Theorem getDockerComposeYaml_path_and_content (id : string) paths st :
  getAppPaths cfg id = Ok paths →
  let arm := join [appInstalledDir paths; "docker-compose.arm64.yml"] in
  let yml := join [appInstalledDir paths; "docker-compose.yml"] in
  let returns chosen st1 :=
    ∃ content st',
      getDockerComposeYaml cfg id st =
        (Ok {| path := chosen; content := content |}, st')
      ∧ (∀ st2, pathExists chosen st1 = (Ok false, st2) → content = None)
      ∧ (∀ e st2, pathExists chosen st1 = (Throw e, st2) → content = None)
      ∧ (∀ e st2 st3,
           pathExists chosen st1 = (Ok true, st2) →
           readTextFile chosen st2 = (Throw e, st3) → content = None)
      ∧ (∀ text st2 st3,
           pathExists chosen st1 = (Ok true, st2) →
           readTextFile chosen st2 = (Ok text, st3) → content = text) in
  arm ≠ yml
  ∧ (architecture cfg ≠ "arm64" → returns yml st)
  ∧ (architecture cfg = "arm64" →
       (∀ st1, pathExists arm st = (Ok true, st1) → returns arm st1)
       ∧ (∀ st1, pathExists arm st = (Ok false, st1) → returns yml st1)
       ∧ (∀ e st1, pathExists arm st = (Throw e, st1) →
            getDockerComposeYaml cfg id st = (Throw e, st1))).
Proof.
  intros Hp arm yml returns.
  assert (∀ useArm st1,
    armComposeExists cfg (appInstalledDir paths) st = (Ok useArm, st1) →
    returns (if useArm : bool then arm else yml) st1) as Hchosen.
  { intros useArm st1 Harm. unfold returns.
    unfold getDockerComposeYaml, mbind, M_bind, lift. rewrite Hp, Harm.
    fold arm yml. set (chosen := if useArm then arm else yml).
    unfold try_catch.
    destruct (pathExists chosen st1) as [[[|]|e] st2] eqn:Hex;
      [destruct (readTextFile chosen st2) as [[text|e] st3] eqn:Hrd|..];
      eexists _, _; (split; [reflexivity|]);
      repeat split; intros; congruence. }
  split; [|split].
  - intros H. by apply join_file_name_inj in H.
  - intros Harch. apply (Hchosen false).
    unfold armComposeExists. by rewrite bool_decide_eq_false_2.
  - intros Harch. split; [|split].
    + intros st1 Hex. apply (Hchosen true).
      unfold armComposeExists. by rewrite bool_decide_eq_true_2.
    + intros st1 Hex. apply (Hchosen false).
      unfold armComposeExists. by rewrite bool_decide_eq_true_2.
    + intros e st1 Hex.
      unfold getDockerComposeYaml, armComposeExists, mbind, M_bind, lift.
      rewrite Hp, bool_decide_eq_true_2 by done. fold arm. by rewrite Hex.
Qed.

(** C10: when the machine says the per-app env file does not exist,
    [getAppEnv] returns the empty string as content; when it says the
    user env file, or the user compose file, does not exist, [getUserEnv],
    or [getUserComposeFile], returns [null] as content. *)
Theorem missing_env_file_contents (appId : string) st :
  (∀ paths st1,
     getAppPaths cfg appId = Ok paths →
     pathExists (join [appDataDir paths; "app.env"]) st = (Ok false, st1) →
     getAppEnv cfg appId st =
       (Ok {| path := join [appDataDir paths; "app.env"]; content := "" |}, st1))
  ∧ (∀ st1,
       pathExists
         (join [Directories.dataDir (directories cfg); "user-config"; appId; "app.env"])
         st = (Ok false, st1) →
       getUserEnv cfg appId st =
         (Ok {| path := join [Directories.dataDir (directories cfg); "user-config";
                              appId; "app.env"];
                content := None |}, st1))
  ∧ (∀ st1,
       pathExists
         (join [Directories.dataDir (directories cfg); "user-config"; appId;
                "docker-compose.yml"])
         st = (Ok false, st1) →
       getUserComposeFile cfg appId st =
         (Ok {| path := join [Directories.dataDir (directories cfg); "user-config";
                              appId; "docker-compose.yml"];
                content := None |}, st1)).
Proof.
  split; [|split].
  - intros paths st1 Hp Hex.
    unfold getAppEnv, mbind, M_bind, lift. by rewrite Hp, Hex.
  - intros st1 Hex. unfold getUserEnv, mbind, M_bind. by rewrite Hex.
  - intros st1 Hex. unfold getUserComposeFile, mbind, M_bind. by rewrite Hex.
Qed.

End Manager.

Import Machine.

(** C8 as stated fails: [invalid] has no underscore and [getAppPaths]
    throws on it, yet [getUserEnv], which takes the app id, returns
    normally after asking the filesystem about a path built from it. *)
Lemma getUserEnv_invalid_id_reads_filesystem :
  splits_in_two "invalid" = false
  ∧ getAppPaths config "invalid"
    = Throw (Error "Invalid namespaced app id: invalid")
  ∧ (getUserEnv config "invalid" (start (installed true []))).1
    = Ok {| path := "/data/user-config/invalid/app.env"; content := None |}
  ∧ calls (getUserEnv config "invalid" (start (installed true []))).2
    = [PathExists "/data/user-config/invalid/app.env"].
Proof. repeat split; reflexivity. Qed.

(** C7 as stated fails: under one configuration and for one app id,
    [getDockerComposeYaml] touches [docker-compose.yml] on a machine
    without the file for [arm64], and does not touch it on a machine that
    has this file. *)
Lemma getDockerComposeYaml_paths_depend_on_files :
  omap target
    (calls (run parse_json parse_info app_available config
              GetDockerComposeYaml "store_nginx" (start (installed true []))).2)
  = ["/data/apps/store/nginx/docker-compose.arm64.yml";
     "/data/apps/store/nginx/docker-compose.yml";
     "/data/apps/store/nginx/docker-compose.yml"]
  ∧ omap target
      (calls (run parse_json parse_info app_available config
                GetDockerComposeYaml "store_nginx"
                (start (installed_arm64 true []))).2)
    = ["/data/apps/store/nginx/docker-compose.arm64.yml";
       "/data/apps/store/nginx/docker-compose.arm64.yml";
       "/data/apps/store/nginx/docker-compose.arm64.yml"].
Proof. split; reflexivity. Qed.

Lemma invalid_app_id_fails_before_filesystem_witness :
  splits_in_two "invalid" = false
  ∧ getAppPaths config "invalid"
    = Throw (Error ("Invalid namespaced app id: " +:+ "invalid"))
  ∧ (∀ op, throws_on_invalid_id op = true →
       run parse_json parse_info app_available config op "invalid"
         (start (installed true []))
       = (Throw (Error ("Invalid namespaced app id: " +:+ "invalid")),
          start (installed true [])))
  ∧ getInstalledAppInfo parse_json parse_info app_available config "invalid"
      (start (installed true []))
    = (Ok InfoNull, start (installed true [])).
Proof.
  split; [reflexivity|].
  apply (invalid_app_id_fails_before_filesystem parse_json parse_info
           app_available config "invalid" (start (installed true []))).
  reflexivity.
Defined.

Lemma getDockerComposeYaml_path_and_content_witness :
  getAppPaths config "store_nginx" = Ok nginx_paths
  ∧ architecture config = "arm64"
  ∧ ∃ st',
      getDockerComposeYaml config "store_nginx" (start (installed_arm64 true []))
      = (Ok {| path := "/data/apps/store/nginx/docker-compose.arm64.yml";
               content := Some "services: {arm: {}}" |}, st').
Proof.
  split; [reflexivity|]. split; [reflexivity|].
  destruct (getDockerComposeYaml_path_and_content config "store_nginx"
              nginx_paths (start (installed_arm64 true [])) eq_refl)
    as (_ & _ & H).
  destruct H as [Harm _]; [reflexivity|].
  edestruct Harm as (content & st' & Hrun & _ & _ & _ & Hread); [reflexivity|].
  assert (content = Some "services: {arm: {}}") as ->
    by (eapply Hread; reflexivity).
  exists st'. exact Hrun.
Defined.

Lemma missing_env_file_contents_witness :
  getAppPaths config "store_nginx" = Ok nginx_paths
  ∧ pathExists "/app-data/store/nginx/app.env" (start (installed true []))
    = (Ok false,
       {| world := installed true [];
          calls := [PathExists "/app-data/store/nginx/app.env"] |})
  ∧ getAppEnv config "store_nginx" (start (installed true []))
    = (Ok {| path := "/app-data/store/nginx/app.env"; content := "" |},
       {| world := installed true [];
          calls := [PathExists "/app-data/store/nginx/app.env"] |}).
Proof.
  split; [reflexivity|]. split; [reflexivity|].
  apply (proj1 (missing_env_file_contents config "store_nginx"
                  (start (installed true []))) nginx_paths);
    reflexivity.
Defined.

End AppFilesManagerSpec.

(** * The uninstall command against the lifecycle specification *)

Module UninstallAppSpec.
Import Js Backend AppFilesManagerSpec.

Ltac unfold_command :=
  unfold execute, handleAppError, ensureAppDir, composeApp,
    deleteAppFolder, deleteAppDataDir;
  unfold_monad; cbn [world calls fst snd].

Section Uninstall.
Context {W Json Form : Type}.
Context `{!FilesystemService W Json, !DockerService W, !AppLifecycleCommand W Form}.
Context (cfg : Config).
Implicit Types (st : State (W:=W)) (w : W).

(** C5: for an app with a well-formed id whose directory has been
    ensured, a failing [composeApp ... down] is answered with a warning
    only: both directories are then removed and, these removals
    succeeding, [execute] returns the success result. *)
Theorem uninstall_tolerates_engine_failure appId (form : Form) paths st w1 err w2 w3 w4 :
  getAppPaths cfg appId = Ok paths →
  base_ensureAppDir appId form (world st) = (Ok (), w1) →
  docker_composeApp appId down w1 = (Throw err, w2) →
  fs_removeDirectory (appInstalledDir paths) w2 = (Ok (), w3) →
  fs_removeDirectory (appDataDir paths) w3 = (Ok (), w4) →
  execute cfg appId form st =
    (Ok {| success := true;
           message := "App " +:+ appId +:+ " uninstalled successfully" |},
     {| world := w4;
        calls := calls st ++
          [LoggerInfo ("Uninstalling app " +:+ appId);
           EnsureAppDir appId;
           ComposeApp appId down;
           LoggerWarn (uninstall_warning appId) err;
           RemoveDirectory (appInstalledDir paths);
           RemoveDirectory (appDataDir paths);
           LoggerInfo ("App " +:+ appId +:+ " uninstalled")] |}).
Proof.
  intros Hp Hdir Hdown Hrm1 Hrm2. unfold down in *.
  unfold_command. rewrite Hp, Hdir. cbn [world calls].
  rewrite Hdown. cbn [world calls]. rewrite Hrm1. cbn [world calls].
  rewrite Hrm2. cbn [world calls].
  by rewrite <- !app_assoc.
Qed.

(** C6: if removing the app folder throws, or removing the app data
    directory throws after the folder is gone, then, whatever the engine
    answered, [execute] does not return the success result: the thrown
    error goes to [handleAppError], whose failure result is returned. *)
Theorem uninstall_fails_when_bundle_removal_fails
    appId (form : Form) paths st w1 (engine : Res ()) w2 err w3 :
  getAppPaths cfg appId = Ok paths →
  base_ensureAppDir appId form (world st) = (Ok (), w1) →
  docker_composeApp appId down w1 = (engine, w2) →
  (fs_removeDirectory (appInstalledDir paths) w2 = (Throw err, w3)
   ∨ ∃ w, fs_removeDirectory (appInstalledDir paths) w2 = (Ok (), w)
          ∧ fs_removeDirectory (appDataDir paths) w = (Throw err, w3)) →
  ∃ st',
    execute cfg appId form st = handleAppError err appId "uninstall" st'
    ∧ world st' = w3
    ∧ (execute cfg appId form st).1
      = Ok {| success := false; message := message_of err |}.
Proof.
  intros Hp Hdir Hdown Hrm. unfold down in *.
  unfold_command. rewrite Hp, Hdir. cbn [world calls].
  rewrite Hdown.
  destruct engine as [[]|e], Hrm as [Hrm1|(w & Hrm1 & Hrm2)];
    cbn [world calls]; rewrite Hrm1; cbn [world calls];
    rewrite ?Hrm2; cbn [world calls];
    by eexists.
Qed.

End Uninstall.

Import Machine.

Lemma uninstall_tolerates_engine_failure_witness :
  execute config "store_nginx" () (start (installed false [])) =
    (Ok {| success := true;
           message := "App store_nginx uninstalled successfully" |},
     {| world := {| files := ∅; locked := []; engine_up := false |};
        calls :=
          [LoggerInfo "Uninstalling app store_nginx";
           EnsureAppDir "store_nginx";
           ComposeApp "store_nginx" down;
           LoggerWarn (uninstall_warning "store_nginx")
             (Error "compose failed: down --remove-orphans --volumes --rmi all");
           RemoveDirectory "/data/apps/store/nginx";
           RemoveDirectory "/app-data/store/nginx";
           LoggerInfo "App store_nginx uninstalled"] |}).
Proof.
  apply (uninstall_tolerates_engine_failure config "store_nginx" () nginx_paths
           (start (installed false []))
           (installed false [])
           (Error "compose failed: down --remove-orphans --volumes --rmi all")
           (installed false [])
           {| files := ∅; locked := []; engine_up := false |}
           {| files := ∅; locked := []; engine_up := false |});
    reflexivity.
Defined.

Lemma uninstall_fails_when_bundle_removal_fails_witness :
  ∃ st',
    execute config "store_nginx" ()
      (start (installed true ["/app-data/store/nginx"]))
    = handleAppError (Error "EACCES: /app-data/store/nginx") "store_nginx"
        "uninstall" st'
    ∧ world st' =
        {| files := ∅; locked := ["/app-data/store/nginx"]; engine_up := true |}
    ∧ (execute config "store_nginx" ()
         (start (installed true ["/app-data/store/nginx"]))).1
      = Ok {| success := false; message := "EACCES: /app-data/store/nginx" |}.
Proof.
  apply (uninstall_fails_when_bundle_removal_fails config "store_nginx" ()
           nginx_paths
           (start (installed true ["/app-data/store/nginx"]))
           (installed true ["/app-data/store/nginx"])
           (Ok ())
           (installed true ["/app-data/store/nginx"])).
  - reflexivity.
  - reflexivity.
  - reflexivity.
  - right.
    exists {| files := ∅; locked := ["/app-data/store/nginx"]; engine_up := true |}.
    split; reflexivity.
Defined.

End UninstallAppSpec.

(** * More on the files manager *)

Module AppFilesManagerFacts.
Import Js Backend PathFacts AppFilesManagerSpec.

Lemma append_empty (s : string) : s +:+ "" = s.
Proof. induction s as [|c s IH]; [done|]. by rewrite append_cons, IH. Qed.

Lemma cut_Some (sep : ascii) (s before after : string) :
  cut sep s = Some (before, after) →
  s = before +:+ String sep after ∧ contains sep before = false.
Proof.
  revert before. induction s as [|c s IH]; intros before; simpl; [done|].
  case_decide as Hc.
  - intros [= <- <-]. by subst c.
  - destruct (cut sep s) as [[b a]|]; [|done].
    intros [= <- <-]. destruct (IH b eq_refl) as [-> Hb].
    split; [done|]. simpl. rewrite Hb.
    by rewrite bool_decide_eq_false_2.
Qed.

Lemma cut_None (sep : ascii) (s : string) :
  cut sep s = None → contains sep s = false.
Proof.
  induction s as [|c s IH]; simpl; [done|].
  case_decide; [done|].
  destruct (cut sep s) as [[b a]|]; [done|].
  intros _. rewrite IH by done. by rewrite bool_decide_eq_false_2.
Qed.

Section Manager.
Context {W Json AppInfo : Type}.
Context `{!FilesystemService W Json, !Shell W}.
Context (JSON_parse : string → Res Json).
Context (safeParse : Json → AppInfo + string) (available : AppInfo → bool).
Context (cfg : Config).
Implicit Types (st : State (W:=W)).

(** The paths [getAppPaths] builds from a store and an id. *)
Lemma getAppPaths_pieces (s store id : string) (pieces : list string) :
  split "_" s = store :: id :: pieces →
  store ≠ "" → id ≠ "" →
  getAppPaths cfg s =
    Ok {| appDataDir :=
            join [Directories.appDataDir (directories cfg); store; id];
          appInstalledDir :=
            join [join [Directories.dataDir (directories cfg); "apps"]; store; id] |}.
Proof.
  intros Hs Hstore Hid. unfold getAppPaths. rewrite Hs.
  cbn [lookup list_lookup falsy default].
  by rewrite !bool_decide_eq_false_2.
Qed.

(** X1: [getAppPaths] returns exactly for the ids that start with a
    non-empty store, an underscore and a non-empty id, the id running up
    to the next underscore or to the end; what follows a second
    underscore plays no part in the paths returned. *)
Theorem getAppPaths_ok_iff (s : string) (paths : AppPaths) :
  getAppPaths cfg s = Ok paths ↔
  ∃ store id rest,
    s = store +:+ "_" +:+ id +:+ rest
    ∧ store ≠ "" ∧ id ≠ ""
    ∧ contains "_" store = false ∧ contains "_" id = false
    ∧ (rest = "" ∨ ∃ more, rest = "_" +:+ more)
    ∧ paths =
        {| appDataDir :=
             join [Directories.appDataDir (directories cfg); store; id];
           appInstalledDir :=
             join [join [Directories.dataDir (directories cfg); "apps"]; store; id] |}.
Proof.
  split.
  - pose proof (split_cut "_" s) as Hs.
    destruct (cut "_" s) as [[store t]|] eqn:Hcut.
    + destruct (cut_Some _ _ _ _ Hcut) as [-> Hstore].
      pose proof (split_cut "_" t) as Ht.
      assert (∃ id rest pieces,
                 t = id +:+ rest ∧ contains "_" id = false
                 ∧ (rest = "" ∨ ∃ more, rest = "_" +:+ more)
                 ∧ split "_" t = id :: pieces) as (id & rest & pieces & -> & Hid & Hrest & Ht').
      { destruct (cut "_" t) as [[id more]|] eqn:Hcut'.
        - destruct (cut_Some _ _ _ _ Hcut') as [-> Hid].
          exists id, ("_" +:+ more), (split "_" more). eauto 10.
        - exists t, "", []. rewrite append_empty.
          split; [done|]. split; [by apply cut_None|]. by split; [left|]. }
      rewrite Ht' in Hs. unfold getAppPaths. rewrite Hs.
      cbn [lookup list_lookup falsy default].
      destruct (bool_decide_reflect (store = "")) as [|Hne1]; [done|].
      destruct (bool_decide_reflect (id = "")) as [|Hne2]; [done|].
      intros [= <-]. exists store, id, rest. eauto 10.
    + unfold getAppPaths. rewrite Hs. cbn. by rewrite orb_true_r.
  - intros (store & id & rest & -> & Hne1 & Hne2 & Hstore & Hid & Hrest & ->).
    change (store +:+ "_" +:+ id +:+ rest)
      with (store +:+ String "_" (id +:+ rest)).
    destruct Hrest as [->|[more ->]].
    + apply (getAppPaths_pieces _ store id []); [|done..].
      rewrite split_append, append_empty.
      by rewrite (split_without_sep _ store), (split_without_sep _ id).
    + apply (getAppPaths_pieces _ store id (split "_" more)); [|done..].
      change (id +:+ "_" +:+ more) with (id +:+ String "_" more).
      rewrite !split_append.
      by rewrite (split_without_sep _ store), (split_without_sep _ id).
Qed.

(** X2: two well-formed app ids that agree up to a second underscore
    stand for the same directories: the rest of the longer one is
    ignored. *)
Theorem getAppPaths_ignores_suffix (store id more : string) :
  store ≠ "" → id ≠ "" →
  contains "_" store = false → contains "_" id = false →
  getAppPaths cfg (store +:+ "_" +:+ id +:+ "_" +:+ more)
  = getAppPaths cfg (store +:+ "_" +:+ id).
Proof.
  intros Hne1 Hne2 Hstore Hid.
  rewrite (getAppPaths_pieces _ store id (split "_" more)); [|..|done|done].
  - symmetry. apply (getAppPaths_pieces _ store id []); [|done..].
    change (store +:+ "_" +:+ id) with (store +:+ String "_" id).
    rewrite split_append.
    by rewrite (split_without_sep _ store), (split_without_sep _ id).
  - change (store +:+ "_" +:+ id +:+ "_" +:+ more)
      with (store +:+ String "_" (id +:+ String "_" more)).
    rewrite !split_append.
    by rewrite (split_without_sep _ store), (split_without_sep _ id).
Qed.

(** X3: for a well-formed id [getDockerComposeJson] always returns, with
    the path of [docker-compose.json] in the installed directory; its
    content is what was read, and [null] when the file is said not to
    exist, when asking so throws or when reading throws. *)
Theorem getDockerComposeJson_never_throws (id : string) paths st :
  getAppPaths cfg id = Ok paths →
  let file := join [appInstalledDir paths; "docker-compose.json"] in
  ∃ content st',
    getDockerComposeJson cfg id st = (Ok {| path := file; content := content |}, st')
    ∧ (∀ st1, pathExists file st = (Ok false, st1) → content = None ∧ st' = st1)
    ∧ (∀ e st1, pathExists file st = (Throw e, st1) → content = None)
    ∧ (∀ e st1 st2,
         pathExists file st = (Ok true, st1) →
         readJsonFile file st1 = (Throw e, st2) → content = None)
    ∧ (∀ json st1 st2,
         pathExists file st = (Ok true, st1) →
         readJsonFile file st1 = (Ok json, st2) → content = json ∧ st' = st2).
Proof.
  intros Hp file.
  unfold getDockerComposeJson, mbind, M_bind, lift. rewrite Hp.
  fold file. unfold try_catch.
  destruct (pathExists file st) as [[[|]|e] st1] eqn:Hex;
    [destruct (readJsonFile file st1) as [[json|e] st2] eqn:Hrd|..];
    eexists _, _; (split; [reflexivity|]);
    repeat split; intros; congruence.
Qed.

(** X4: for a well-formed id [setAppDataDirPermissions] never throws: it
    runs one [chmod -Rf a+rwx] on the app data directory, and a failure
    of that command is only logged. *)
Theorem setAppDataDirPermissions_only_logs_failure (appId : string) paths st :
  getAppPaths cfg appId = Ok paths →
  let cmd := "chmod -Rf a+rwx " +:+ appDataDir paths in
  ∃ st',
    setAppDataDirPermissions cfg appId st = (Ok (), st')
    ∧ ((∃ w', sh_execAsync cmd (world st) = (Ok (), w')
              ∧ st' = {| world := w'; calls := calls st ++ [ExecAsync cmd] |})
       ∨ (∃ e w', sh_execAsync cmd (world st) = (Throw e, w')
                  ∧ st' = {| world := w';
                             calls := calls st ++
                               [ExecAsync cmd;
                                LoggerError ("Error setting permissions for app "
                                             +:+ appId)] |})).
Proof.
  intros Hp cmd. unfold setAppDataDirPermissions. unfold_monad.
  rewrite Hp. fold cmd.
  destruct (sh_execAsync cmd (world st)) as [[[]|e] w'] eqn:Hsh;
    eexists; (split; [reflexivity|]).
  - left. by eexists.
  - right. cbn [world calls]. rewrite <- app_assoc. by eexists _, _.
Qed.

(** X5: [getInstalledAppInfo] never throws, whatever the id and whatever
    the filesystem and the parsers do; it reports an app only if its
    parsed config says it is available, and reports nothing when the
    filesystem says there is no [config.json]. *)
Theorem getInstalledAppInfo_never_throws (id : string) st :
  ∃ info st',
    getInstalledAppInfo JSON_parse safeParse available cfg id st = (Ok info, st')
    ∧ (∀ data description,
         info = Info data description →
         available data = true ∧ ∃ json, safeParse json = inl data)
    ∧ (∀ paths st1,
         getAppPaths cfg id = Ok paths →
         pathExists (join [appInstalledDir paths; "config.json"]) st = (Ok false, st1) →
         info = InfoUndefined ∧ st' = st1).
Proof.
  unfold getInstalledAppInfo. unfold_monad.
  destruct (getAppPaths cfg id) as [paths|e] eqn:Hp; cbn [world calls fst snd].
  2: { eexists _, _. split; [reflexivity|]. split; [done|]. by intros ?? [=]. }
  destruct (fs_pathExists _ (world st)) as [[[|]|?] ?] eqn:Hex;
    cbn [world calls fst snd].
  2,3: eexists _, _; (split; [reflexivity|]); split; [done|];
       intros ?? [= <-]; rewrite Hex; by intros [=].
  destruct (fs_readTextFile _ _) as [[text|?] ?] eqn:Hrd; cbn [world calls fst snd].
  2: { eexists _, _. split; [reflexivity|]. split; [done|].
       intros ?? [= <-]. rewrite Hex. by intros [=]. }
  destruct (JSON_parse (default "" text)) as [json|?]; cbn [world calls fst snd].
  2: { eexists _, _. split; [reflexivity|]. split; [done|].
       intros ?? [= <-]. rewrite Hex. by intros [=]. }
  destruct (safeParse json) as [data|error] eqn:Hparse; cbn [world calls fst snd].
  2: { eexists _, _. split; [reflexivity|]. split; [done|].
       intros ?? [= <-]. rewrite Hex. by intros [=]. }
  destruct (available data) eqn:Hav; cbn [world calls fst snd].
  2: { eexists _, _. split; [reflexivity|]. split; [done|].
       intros ?? [= <-]. rewrite Hex. by intros [=]. }
  destruct (fs_readTextFile (join [_; "metadata"; _]) _) as [[description|?] ?];
    cbn [world calls fst snd];
    eexists _, _; (split; [reflexivity|]); (split; [|
       intros ?? [= <-]; rewrite Hex; by intros [=]]).
  - intros ?? [= <- _]. eauto.
  - done.
Qed.

(** X6: on a filesystem that keeps what is written, [getAppEnv] after a
    [writeAppEnv] that returned gives back the text written, under the
    path written to, and leaves the machine as it is. *)
Theorem writeAppEnv_getAppEnv (appId env : string) paths st st1 :
  keeps_written_text →
  getAppPaths cfg appId = Ok paths →
  writeAppEnv cfg appId env st = (Ok (), st1) →
  ∃ st2,
    getAppEnv cfg appId st1 =
      (Ok {| path := join [appDataDir paths; "app.env"]; content := env |}, st2)
    ∧ world st2 = world st1
    ∧ target <$> last (calls st1) = Some (Some (join [appDataDir paths; "app.env"])).
Proof.
  intros Hfs Hp. unfold writeAppEnv, getAppEnv. unfold_monad. rewrite Hp.
  destruct (fs_writeTextFile _ _ _) as [[[]|?] w1] eqn:Hwr; [|done].
  intros [= <-]. cbn [world calls].
  destruct (Hfs _ _ _ _ Hwr) as [Hex Hrd].
  rewrite Hex. cbn [world calls]. rewrite Hrd. cbn [world calls default].
  eexists. split; [reflexivity|]. split; [done|]. by rewrite last_snoc.
Qed.

(** X7: on a filesystem that keeps what is written and an architecture
    other than [arm64], [getDockerComposeYaml] after a
    [writeDockerComposeYml] that returned gives back the compose file
    written. *)
Theorem writeDockerComposeYml_getDockerComposeYaml
    (appId composeFile : string) paths st st1 :
  keeps_written_text →
  architecture cfg ≠ "arm64" →
  getAppPaths cfg appId = Ok paths →
  writeDockerComposeYml cfg appId composeFile st = (Ok (), st1) →
  ∃ st2,
    getDockerComposeYaml cfg appId st1 =
      (Ok {| path := join [appInstalledDir paths; "docker-compose.yml"];
             content := Some composeFile |}, st2)
    ∧ world st2 = world st1.
Proof.
  intros Hfs Harch Hp.
  unfold writeDockerComposeYml, getDockerComposeYaml. unfold_monad. rewrite Hp.
  destruct (fs_writeTextFile _ _ _) as [[[]|?] w1] eqn:Hwr; [|done].
  intros [= <-]. cbn [world calls].
  rewrite bool_decide_eq_false_2 by done. cbn [world calls].
  destruct (Hfs _ _ _ _ Hwr) as [Hex Hrd].
  rewrite Hex. cbn [world calls]. rewrite Hrd. cbn [world calls].
  eexists. by split.
Qed.

End Manager.
Import Machine.

Lemma machine_keeps_written_text : keeps_written_text (W:=Machine.t).
Proof.
  intros p data w w' [= <-]. cbn. unfold read. cbn.
  rewrite lookup_insert_eq. split; [|done].
  by rewrite bool_decide_eq_true_2.
Qed.

Lemma getAppPaths_ignores_suffix_witness :
  getAppPaths config "store_nginx_beta" = getAppPaths config "store_nginx".
Proof.
  apply (getAppPaths_ignores_suffix config "store" "nginx" "beta");
    first [discriminate | reflexivity].
Defined.

Lemma getDockerComposeJson_never_throws_witness :
  ∃ content st',
    getDockerComposeJson (Json:=string) config "store_nginx"
      (start (installed true []))
    = (Ok {| path := "/data/apps/store/nginx/docker-compose.json";
             content := content |}, st').
Proof.
  destruct (getDockerComposeJson_never_throws config "store_nginx" nginx_paths
              (start (installed true [])) eq_refl)
    as (content & st' & Hrun & _).
  by exists content, st'.
Defined.

Lemma setAppDataDirPermissions_only_logs_failure_witness :
  ∃ st',
    setAppDataDirPermissions (W:=Machine.t) config "store_nginx"
      (start (installed true []))
    = (Ok (), st').
Proof.
  destruct (setAppDataDirPermissions_only_logs_failure config "store_nginx"
              nginx_paths (start (installed true [])) eq_refl)
    as (st' & Hrun & _).
  by exists st'.
Defined.

Lemma writeAppEnv_getAppEnv_witness :
  ∃ st2,
    getAppEnv config "store_nginx"
      (writeAppEnv config "store_nginx" "PORT=8080" (start (installed true []))).2
    = (Ok {| path := "/app-data/store/nginx/app.env"; content := "PORT=8080" |}, st2).
Proof.
  destruct (writeAppEnv_getAppEnv config "store_nginx" "PORT=8080" nginx_paths
              (start (installed true []))
              (writeAppEnv config "store_nginx" "PORT=8080"
                 (start (installed true []))).2)
    as (st2 & Hrun & _);
    [exact machine_keeps_written_text | reflexivity | reflexivity |].
  by exists st2.
Defined.

Lemma writeDockerComposeYml_getDockerComposeYaml_witness :
  ∃ st2,
    getDockerComposeYaml config_amd64 "store_nginx"
      (writeDockerComposeYml config_amd64 "store_nginx" "services: {web: {}}"
         (start (installed true []))).2
    = (Ok {| path := "/data/apps/store/nginx/docker-compose.yml";
             content := Some "services: {web: {}}" |}, st2).
Proof.
  destruct (writeDockerComposeYml_getDockerComposeYaml config_amd64 "store_nginx"
              "services: {web: {}}" nginx_paths
              (start (installed true []))
              (writeDockerComposeYml config_amd64 "store_nginx"
                 "services: {web: {}}" (start (installed true []))).2)
    as (st2 & Hrun & _);
    [exact machine_keeps_written_text | discriminate | reflexivity | reflexivity |].
  by exists st2.
Defined.

End AppFilesManagerFacts.

(** * More on the uninstall command *)

Module UninstallAppFacts.
Import Js Backend AppFilesManagerSpec UninstallAppSpec.

Section Uninstall.
Context {W Json Form : Type}.
Context `{!FilesystemService W Json, !DockerService W, !AppLifecycleCommand W Form}.
Context (cfg : Config).
Implicit Types (st : State (W:=W)) (w : W).

(** X8: when [ensureAppDir] throws, the error handler is reached with
    nothing done but the first log line and that call: the engine is not
    asked anything and no directory is removed. *)
Theorem uninstall_stops_when_ensureAppDir_throws appId (form : Form) st err w1 :
  base_ensureAppDir appId form (world st) = (Throw err, w1) →
  execute cfg appId form st =
    handleAppError err appId "uninstall"
      {| world := w1;
         calls := calls st ++
           [LoggerInfo ("Uninstalling app " +:+ appId); EnsureAppDir appId] |}.
Proof.
  intros Hdir. unfold_command. rewrite Hdir. cbn [world calls].
  by rewrite <- app_assoc.
Qed.

(** X9: for an app id [getAppPaths] rejects, the engine is still asked
    to take the app down (a failure of that being logged as a warning);
    only then does [deleteAppFolder] throw the invalid-id error, which
    goes to the error handler, and no directory is removed. *)
Theorem uninstall_malformed_id_still_calls_engine
    appId (form : Form) st e w1 (engine : Res ()) w2 :
  getAppPaths cfg appId = Throw e →
  base_ensureAppDir appId form (world st) = (Ok (), w1) →
  docker_composeApp appId down w1 = (engine, w2) →
  execute cfg appId form st =
    handleAppError e appId "uninstall"
      {| world := w2;
         calls := calls st ++
           [LoggerInfo ("Uninstalling app " +:+ appId);
            EnsureAppDir appId;
            ComposeApp appId down] ++
           match engine with
           | Ok _ => []
           | Throw err => [LoggerWarn (uninstall_warning appId) err]
           end |}.
Proof.
  intros Hp Hdir Hdown. unfold down in *.
  unfold_command. rewrite Hp, Hdir. cbn [world calls]. rewrite Hdown.
  destruct engine as [[]|err]; cbn [world calls];
    by rewrite <- ?app_assoc, ?app_nil_r.
Qed.

(** X10: when the engine takes the app down and both removals succeed,
    [execute] returns the success result without any warning: the journal
    is the two log lines around [ensureAppDir], the engine call and the
    two removals, the app folder first. *)
Theorem uninstall_after_engine_success appId (form : Form) paths st w1 w2 w3 w4 :
  getAppPaths cfg appId = Ok paths →
  base_ensureAppDir appId form (world st) = (Ok (), w1) →
  docker_composeApp appId down w1 = (Ok (), w2) →
  fs_removeDirectory (appInstalledDir paths) w2 = (Ok (), w3) →
  fs_removeDirectory (appDataDir paths) w3 = (Ok (), w4) →
  execute cfg appId form st =
    (Ok {| success := true;
           message := "App " +:+ appId +:+ " uninstalled successfully" |},
     {| world := w4;
        calls := calls st ++
          [LoggerInfo ("Uninstalling app " +:+ appId);
           EnsureAppDir appId;
           ComposeApp appId down;
           RemoveDirectory (appInstalledDir paths);
           RemoveDirectory (appDataDir paths);
           LoggerInfo ("App " +:+ appId +:+ " uninstalled")] |}).
Proof.
  intros Hp Hdir Hdown Hrm1 Hrm2. unfold down in *.
  unfold_command. rewrite Hp, Hdir. cbn [world calls].
  rewrite Hdown. cbn [world calls]. rewrite Hrm1. cbn [world calls].
  rewrite Hrm2. cbn [world calls].
  by rewrite <- !app_assoc.
Qed.

End Uninstall.
Import Machine.

Lemma uninstall_stops_when_ensureAppDir_throws_witness :
  execute (AppLifecycleCommand0:=lifecycle_without_store) config "store_nginx" ()
    (start (installed true []))
  = handleAppError (Error "App store_nginx not found in app store")
      "store_nginx" "uninstall"
      {| world := installed true [];
         calls := [LoggerInfo "Uninstalling app store_nginx";
                   EnsureAppDir "store_nginx"] |}.
Proof.
  apply (uninstall_stops_when_ensureAppDir_throws
           (AppLifecycleCommand0:=lifecycle_without_store)
           config "store_nginx" () (start (installed true []))).
  reflexivity.
Defined.

Lemma uninstall_malformed_id_still_calls_engine_witness :
  execute config "invalid" () (start (installed true []))
  = handleAppError (Error "Invalid namespaced app id: invalid")
      "invalid" "uninstall"
      {| world := installed true [];
         calls := [LoggerInfo "Uninstalling app invalid";
                   EnsureAppDir "invalid";
                   ComposeApp "invalid" down] |}.
Proof.
  apply (uninstall_malformed_id_still_calls_engine config "invalid" ()
           (start (installed true []))
           (Error "Invalid namespaced app id: invalid")
           (installed true []) (Ok ()) (installed true []));
    reflexivity.
Defined.

Lemma uninstall_after_engine_success_witness :
  execute config "store_nginx" () (start (installed true [])) =
    (Ok {| success := true;
           message := "App store_nginx uninstalled successfully" |},
     {| world := {| files := ∅; locked := []; engine_up := true |};
        calls :=
          [LoggerInfo "Uninstalling app store_nginx";
           EnsureAppDir "store_nginx";
           ComposeApp "store_nginx" down;
           RemoveDirectory "/data/apps/store/nginx";
           RemoveDirectory "/app-data/store/nginx";
           LoggerInfo "App store_nginx uninstalled"] |}).
Proof.
  apply (uninstall_after_engine_success config "store_nginx" () nginx_paths
           (start (installed true []))
           (installed true []) (installed true [])
           {| files := ∅; locked := []; engine_up := true |}
           {| files := ∅; locked := []; engine_up := true |});
    reflexivity.
Defined.

End UninstallAppFacts.

(** * More on the restart command and the app queries *)

Module RestartAppFacts.
Import Js RestartApp RestartAppSpec.

Section Restart.
Context {Config Form : Type} (castAppConfig : Config → Form).
Implicit Types (w : World (Config:=Config) (Form:=Form)) (app : App (Config:=Config)).

Lemma to_status_terminal (r : DispatchResult) :
  to_status (Config:=Config) (if success r then running else stopped)
  = to_status (terminal r).
Proof. done. Qed.

Lemma deliver_found w appId app r :
  apps w !! appId = Some app →
  ∃ w',
    deliver (Form:=Form) (SendEventAwait appId) r w = (Ok (), w')
    ∧ apps w' = <[appId := patch (to_status (terminal r)) app]> (apps w)
    ∧ pending w' = list_remove_first (SendEventAwait appId) (pending w)
    ∧ dispatches (trace w') = dispatches (trace w).
Proof.
  intros Hget. unfold deliver.
  rewrite (sendEvent_resume_found _ _ app) by done.
  eexists. split; [reflexivity|]. cbn [apps pending trace unpark emit].
  split; [done|]. split; [done|].
  rewrite <- app_assoc, dispatches_app.
  destruct (success r); cbn; by rewrite app_nil_r.
Qed.

(** X11: a restart, from the call of [execute] to the arrival of the
    engine's result, changes the status column of the app's row and
    nothing else in the table: the row keeps its id and config, and every
    other row is as it was. *)
Theorem restart_changes_only_the_status w appId app r :
  apps w !! appId = Some app →
  ∃ w1 w2,
    execute castAppConfig appId w = (Ok (), w1)
    ∧ deliver (SendEventAwait appId) r w1 = (Ok (), w2)
    ∧ apps w1 !! appId =
        Some {| id := id app; status := restarting; config := config app |}
    ∧ apps w2 !! appId =
        Some {| id := id app; status := terminal r; config := config app |}
    ∧ ∀ other, other ≠ appId →
        apps w1 !! other = apps w !! other ∧ apps w2 !! other = apps w !! other.
Proof.
  intros Hget.
  eexists. destruct (deliver_found
    {| apps := <[appId := patch (to_status restarting) app]> (apps w);
       trace := trace w ++
         [GetApp appId; UpdateApp appId (to_status restarting);
          DispatchEventAsync (restart_event appId (castAppConfig (config app)))];
       pending := pending w ++ [SendEventAwait appId] |}
    appId (patch (to_status restarting) app) r) as (w2 & Hrun & Happs & _).
  { apply lookup_insert_eq. }
  exists w2. split; [by apply execute_found|]. split; [done|].
  rewrite Happs. cbn [apps]. rewrite !lookup_insert_eq.
  split; [done|]. split; [done|].
  intros other Hother. by rewrite !lookup_insert_ne.
Qed.

(** X12: a result that arrives for an app whose row is gone is taken
    without an error and without bringing the row back: the table is as
    before. *)
Theorem result_for_removed_app_changes_nothing w appId r :
  apps w !! appId = None →
  ∃ w',
    deliver (Form:=Form) (SendEventAwait appId) r w = (Ok (), w')
    ∧ apps w' = apps w.
Proof.
  intros Hget. unfold deliver, sendEvent_resume, mbind, M_bind, logger_error, updateApp.
  destruct (success r); cbn [apps emit unpark]; rewrite Hget; by eexists.
Qed.

(** X13: nothing serializes restarts of one app.  A second [execute]
    issued before the first result has arrived is taken like the first:
    the engine is asked twice and two bodies are parked; once both
    results are in, the status is the one of the result delivered
    last. *)
Theorem second_restart_is_not_held_back w appId app r1 r2 :
  apps w !! appId = Some app →
  ∃ w1 w2 w3 w4,
    execute castAppConfig appId w = (Ok (), w1)
    ∧ execute castAppConfig appId w1 = (Ok (), w2)
    ∧ pending w2 = pending w ++ [SendEventAwait appId; SendEventAwait appId]
    ∧ dispatches (trace w2) =
        dispatches (trace w) ++
          [restart_event appId (castAppConfig (config app));
           restart_event appId (castAppConfig (config app))]
    ∧ deliver (SendEventAwait appId) r1 w2 = (Ok (), w3)
    ∧ deliver (SendEventAwait appId) r2 w3 = (Ok (), w4)
    ∧ status_of w4 appId = Some (terminal r2).
Proof.
  intros Hget.
  pose proof (execute_found castAppConfig w appId app Hget) as H1.
  set (app1 := patch (to_status restarting) app) in *.
  set (w1 := {| apps := <[appId := app1]> (apps w) |}) in *.
  assert (apps w1 !! appId = Some app1) as Hget1 by apply lookup_insert_eq.
  pose proof (execute_found castAppConfig w1 appId app1 Hget1) as H2.
  set (w2 := {| apps := <[appId := patch (to_status restarting) app1]> (apps w1) |}) in *.
  destruct (deliver_found w2 appId (patch (to_status restarting) app1) r1)
    as (w3 & Hrun3 & Happs3 & _); [apply lookup_insert_eq|].
  destruct (deliver_found w3 appId
              (patch (to_status (terminal r1)) (patch (to_status restarting) app1)) r2)
    as (w4 & Hrun4 & Happs4 & _); [rewrite Happs3; apply lookup_insert_eq|].
  exists w1, w2, w3, w4.
  split; [done|]. split; [done|].
  split; [cbn; by rewrite <- app_assoc|].
  split; [cbn [trace w2 w1]; rewrite !dispatches_app; cbn; by rewrite <- app_assoc|].
  split; [done|]. split; [done|].
  unfold status_of. by rewrite Happs4, lookup_insert_eq.
Qed.

(** X14: [updateApp appId { status: s }] returns the row a [getApp] on
    the same id finds afterwards: the row the id had, with the status
    [s] and its other columns as they were.  It returns nothing exactly
    when the id has no row, in which case the table is as before, and it
    never touches another id's row. *)
Theorem updateApp_then_getApp w appId (s : AppStatus) :
  ∃ row w',
    updateApp (Form:=Form) appId (to_status s) w = (Ok row, w')
    ∧ (getApp appId w').1 = Ok row
    ∧ (row = None ↔ apps w !! appId = None)
    ∧ (row = None → apps w' = apps w)
    ∧ (∀ old, apps w !! appId = Some old →
         row = Some {| id := id old; status := s; config := config old |})
    ∧ ∀ other, other ≠ appId → apps w' !! other = apps w !! other.
Proof.
  unfold updateApp, getApp.
  destruct (apps w !! appId) as [app|] eqn:Hget; eexists _, _;
    (split; [reflexivity|]); cbn [apps emit fst].
  - rewrite lookup_insert_eq. repeat split; try done.
    + by intros old [= <-].
    + intros other Hother. by rewrite lookup_insert_ne.
  - rewrite Hget. done.
Qed.

Lemma lookup_updateAppsByStatusNotIn
    (statuses : list AppStatus) (data : PartialApp (Config:=Config))
    (table : gmap string (App (Config:=Config))) i :
  (updateAppsByStatusNotIn statuses data table).2 !! i =
    (λ row, if decide (status row ∈ statuses) then row else patch data row)
      <$> table !! i.
Proof.
  unfold updateAppsByStatusNotIn. cbn [snd].
  rewrite lookup_union, lookup_fmap.
  destruct (table !! i) as [row|] eqn:Hrow; cbn.
  - destruct (decide (status row ∈ statuses)) as [Hin|Hout].
    + rewrite (proj2 (map_lookup_filter_None _ _ _)); [done|].
      right. intros row' Hrow' Hno. apply Hno. cbn. congruence.
    + by rewrite (proj2 (map_lookup_filter_Some _ _ _ row)).
  - rewrite (proj2 (map_lookup_filter_None _ _ _)); [done|]. by left.
Qed.

(** X15: after [updateAppsByStatusNotIn statuses { status: s }], for a
    non-empty list, every row has a status of the list or the status
    [s]; the rows whose status was of the list are as before, the table
    has the same ids, and the rows returned are those whose status was
    not of the list. *)
Theorem updateAppsByStatusNotIn_statuses
    (statuses : list AppStatus) (s : AppStatus)
    (table : gmap string (App (Config:=Config))) :
  statuses ≠ [] →
  (∀ i row,
     (updateAppsByStatusNotIn statuses (to_status s) table).2 !! i = Some row →
     status row ∈ statuses ∨ status row = s)
  ∧ (∀ i row,
       table !! i = Some row → status row ∈ statuses →
       (updateAppsByStatusNotIn statuses (to_status s) table).2 !! i = Some row)
  ∧ dom (updateAppsByStatusNotIn statuses (to_status s) table).2 = dom table
  ∧ (∀ i row,
       (updateAppsByStatusNotIn statuses (to_status s) table).1 !! i = Some row ↔
       (∃ old, table !! i = Some old ∧ (status old ∉ statuses)
               ∧ row = patch (to_status s) old)).
Proof.
  intros _. repeat split.
  - intros i row. rewrite lookup_updateAppsByStatusNotIn.
    destruct (table !! i) as [old|]; [|done]. cbn.
    case_decide; intros [= <-]; [by left|by right].
  - intros i row Hrow Hin. rewrite lookup_updateAppsByStatusNotIn, Hrow. cbn.
    by rewrite decide_True.
  - apply set_eq. intros i.
    rewrite !elem_of_dom, lookup_updateAppsByStatusNotIn.
    by rewrite fmap_is_Some.
  - unfold updateAppsByStatusNotIn. cbn [fst]. rewrite lookup_fmap.
    intros (old & Hold & ->)%fmap_Some.
    apply map_lookup_filter_Some in Hold as [Hold Hout]. eauto.
  - unfold updateAppsByStatusNotIn. cbn [fst]. rewrite lookup_fmap.
    intros (old & Hold & Hout & ->).
    by rewrite (proj2 (map_lookup_filter_Some _ _ _ old)).
Qed.

(** X16: with a status [s] of the list, [updateAppsByStatusNotIn statuses
    { status: s }] brings the table to a state it leaves alone: a second
    call returns no row and does not change the table. *)
Theorem updateAppsByStatusNotIn_twice
    (statuses : list AppStatus) (s : AppStatus)
    (table : gmap string (App (Config:=Config))) :
  s ∈ statuses →
  updateAppsByStatusNotIn statuses (to_status s)
    (updateAppsByStatusNotIn statuses (to_status s) table).2
  = (∅, (updateAppsByStatusNotIn statuses (to_status s) table).2).
Proof.
  intros Hs.
  set (table' := (updateAppsByStatusNotIn statuses (to_status s) table).2).
  assert (filter (λ row : string * App (Config:=Config), status row.2 ∉ statuses) table' = ∅) as Hnone.
  { apply map_empty. intros i. apply map_lookup_filter_None.
    right. intros row Hrow Hout. apply Hout. cbn.
    unfold table' in Hrow. rewrite lookup_updateAppsByStatusNotIn in Hrow.
    destruct (table !! i) as [old|]; [|done]. cbn in Hrow.
    case_decide; injection Hrow as <-; [done|]. by cbn. }
  unfold updateAppsByStatusNotIn at 1. rewrite Hnone, fmap_empty.
  by rewrite (left_id_L ∅ (∪)).
Qed.

End Restart.
Lemma restart_changes_only_the_status_witness :
  ∃ w1 w2,
    execute keep_config "store_nginx" (one_app running) = (Ok (), w1)
    ∧ deliver (SendEventAwait "store_nginx") {| success := false; stdout := "exit 1" |} w1
      = (Ok (), w2)
    ∧ apps w2 !! "store_nginx" = Some (nginx stopped).
Proof.
  destruct (restart_changes_only_the_status keep_config (one_app running)
              "store_nginx" (nginx running)
              {| success := false; stdout := "exit 1" |} eq_refl)
    as (w1 & w2 & Hrun1 & Hrun2 & _ & Hrow & _).
  by exists w1, w2.
Defined.

Lemma result_for_removed_app_changes_nothing_witness :
  ∃ w',
    deliver (SendEventAwait "store_nginx") {| success := true; stdout := "" |}
      empty_table = (Ok (), w')
    ∧ apps w' = ∅.
Proof.
  apply (result_for_removed_app_changes_nothing empty_table "store_nginx"
           {| success := true; stdout := "" |}).
  reflexivity.
Defined.

Lemma second_restart_is_not_held_back_witness :
  ∃ w1 w2 w3 w4,
    execute keep_config "store_nginx" (one_app stopped) = (Ok (), w1)
    ∧ execute keep_config "store_nginx" w1 = (Ok (), w2)
    ∧ pending w2 = [SendEventAwait "store_nginx"; SendEventAwait "store_nginx"]
    ∧ dispatches (trace w2) =
        [restart_event "store_nginx" "{}"; restart_event "store_nginx" "{}"]
    ∧ deliver (SendEventAwait "store_nginx") {| success := true; stdout := "" |} w2
      = (Ok (), w3)
    ∧ deliver (SendEventAwait "store_nginx") {| success := false; stdout := "" |} w3
      = (Ok (), w4)
    ∧ status_of w4 "store_nginx" = Some stopped.
Proof.
  apply (second_restart_is_not_held_back keep_config (one_app stopped)
           "store_nginx" (nginx stopped)
           {| success := true; stdout := "" |}
           {| success := false; stdout := "" |}).
  reflexivity.
Defined.

Lemma updateAppsByStatusNotIn_statuses_witness :
  dom (updateAppsByStatusNotIn [running; stopped] (to_status stopped)
         (apps (one_app installing))).2
  = dom (apps (one_app installing)).
Proof.
  assert ([running; stopped] ≠ []) as Hne by discriminate.
  exact (proj1 (proj2 (proj2
           (updateAppsByStatusNotIn_statuses [running; stopped] stopped
              (apps (one_app installing)) Hne)))).
Defined.

Lemma updateAppsByStatusNotIn_twice_witness :
  updateAppsByStatusNotIn [running; stopped] (to_status stopped)
    (updateAppsByStatusNotIn [running; stopped] (to_status stopped)
       (apps (one_app installing))).2
  = (∅, (updateAppsByStatusNotIn [running; stopped] (to_status stopped)
           (apps (one_app installing))).2).
Proof.
  apply (updateAppsByStatusNotIn_twice [running; stopped] stopped
           (apps (one_app installing))).
  apply list_elem_of_further, list_elem_of_here.
Defined.

End RestartAppFacts.

(** * The authentication service *)

Module AuthFacts.
Import Js Auth.

(** Runs a method symbolically, one answer of the host after the other. *)
Ltac unfold_service :=
  unfold login, verifyTotp, getTotpUri, setupTotp, disableTotp, register, me,
    logout, isConfigured, checkPasswordChangeRequest,
    cancelPasswordChangeRequest, changeOperatorPassword, changePassword,
    changeUsername in *;
  unfold getUserByUsername, getUserById, getUserDtoById, getOperators,
    getFirstOperator, updateUser, createUser, verify, hash, cacheSet, cacheGet,
    cacheDel, generateSessionId, setSession, uuidv4, decrypt, encrypt, totpCheck,
    generateSecret, pathExists, readFile, unlink, now,
    destroyAllSessionsByUserId in *;
  unfold demoMode, try_catch, throw, call, mbind, M_bind, mret, M_ret in *.

Ltac host_answer :=
  match goal with
  | |- context [match ?x with (_, _) => _ end] =>
      lazymatch x with
      | context [match _ with (_, _) => _ end] => fail
      | (_, _) => fail
      | _ => destruct x as [[?|?] ?] eqn:?
      end
  end; cbn [world calls fst snd].

Ltac case_condition b :=
  lazymatch b with
  | negb ?c => case_condition c
  | orb ?c _ => case_condition c
  | andb ?c _ => case_condition c
  | _ => destruct b eqn:?
  end.

Ltac branch :=
  match goal with
  | |- context [if ?b then _ else _] => case_condition b
  | |- context [match ?o with Some _ => _ | None => _ end] => destruct o eqn:?
  end; cbn [world calls fst snd negb orb andb].

Ltac run_service :=
  unfold_service; cbn [world calls fst snd];
  repeat first [host_answer | branch].

(** Replays the answers collected so far in the goal. *)
Ltac replay :=
  cbn [world calls fst snd negb orb andb];
  repeat (match goal with
          | H : ?x = (_, _) |- context [?x] => rewrite H
          end; cbn [world calls fst snd negb orb andb]).

Section Service.
Context {W UserDto Time : Type} `{!Host W UserDto Time}.
Context (toString : Z → string) (Number : string → Z).
Context (length16 : string → nat) (trim toLowerCase : string → string).
Context (isEmail : string → bool) (getLocaleFromString : option string → string).
Context (keyuri : string → string → string → string).
Context (request_pending : string → Time → bool).
Context (DATA_DIR : string).
Implicit Types (st : State (W:=W)).

Abbreviation not_in_demo := (translated "SERVER_ERROR_NOT_ALLOWED_IN_DEMO").

(** X17: in demo mode [getTotpUri], [setupTotp], [changePassword] and
    [changeUsername] throw the not-allowed error before any call to a
    collaborator: the host and the journal are as they were. *)
Theorem demo_mode_blocks_account_changes st (userId : Z) (a b : string) :
  config_demoMode (world st) = true →
  getTotpUri keyuri userId a st = (Throw not_in_demo, st)
  ∧ setupTotp userId a st = (Throw not_in_demo, st)
  ∧ changePassword length16 a b userId st = (Throw not_in_demo, st)
  ∧ changeUsername trim toLowerCase isEmail a b userId st = (Throw not_in_demo, st).
Proof.
  intros Hdemo. unfold_service. by rewrite Hdemo.
Qed.

(** X18: [login] returns only for a user that was found and whose stored
    hash [argon2.verify] accepted for the password given.  With TOTP
    enabled the result carries a TOTP session id and no session is set;
    otherwise it carries the id of the one session set for the user. *)
Theorem login_requires_verified_password input st r st' :
  login toString input st = (Ok r, st') →
  ∃ user st1 st2,
    getUserByUsername (input_username input) st = (Ok (Some user), st1)
    ∧ verify (password user) (input_password input) st1 = (Ok true, st2)
    ∧ if totpEnabled user
      then sessionId r = None ∧ is_Some (totpSessionId r)
           ∧ sessions (calls st') = sessions (calls st)
      else totpSessionId r = None
           ∧ ∃ session, sessionId r = Some session
               ∧ sessions (calls st') =
                   sessions (calls st) ++ [(session, toString (id user))].
Proof.
  intros Hrun. revert Hrun. run_service; intros [= <- <-].
  all: eexists _, _, _; (split; [replay; reflexivity|]);
       (split; [replay; reflexivity|]).
  all: match goal with H : totpEnabled _ = _ |- _ => rewrite H end.
  all: cbn [sessionId totpSessionId calls]; unfold sessions;
       rewrite ?omap_app; cbn; rewrite ?app_nil_r.
  - eauto.
  - eauto.
Qed.

(** X19: whatever its outcome, [login] sets a session or writes to the
    cache only after the user was found and [argon2.verify] accepted the
    password. *)
Theorem login_writes_only_after_verification input st r st' :
  login toString input st = (r, st') →
  (sessions (calls st') = sessions (calls st)
   ∧ cached (calls st') = cached (calls st))
  ∨ ∃ user st1 st2,
      getUserByUsername (input_username input) st = (Ok (Some user), st1)
      ∧ verify (password user) (input_password input) st1 = (Ok true, st2).
Proof.
  intros Hrun. revert Hrun. run_service; intros [= <- <-]; simplify_eq.
  all: first
    [ left; cbn [calls]; unfold sessions, cached;
      rewrite ?omap_app; cbn; by rewrite ?app_nil_r
    | right; eexists _, _, _; split; [replay; reflexivity|];
      replay; reflexivity ].
Qed.

(** X20: [changePassword] asks for a user update only outside demo mode,
    for a user that was found, after [argon2.verify] accepted the current
    password, and for a new password of at least 8 code units; the one
    update then sets the password column to what [argon2.hash] made of
    the new password, and nothing else.  In particular a shorter new
    password is never stored. *)
Theorem changePassword_updates_only_when (current new : string) (userId : Z) st r st' :
  changePassword length16 current new userId st = (r, st') →
  (length16 new < 8 → updates (calls st') = updates (calls st))
  ∧ (updates (calls st') = updates (calls st)
     ∨ (config_demoMode (world st) = false
        ∧ 8 ≤ length16 new
        ∧ ∃ user st1 st2 hashed st3,
            getUserById userId st = (Ok (Some user), st1)
            ∧ verify (password user) current st1 = (Ok true, st2)
            ∧ hash new st2 = (Ok hashed, st3)
            ∧ updates (calls st') =
                updates (calls st) ++
                  [(id user,
                    {| set_username := None; set_password := Some hashed;
                       set_totpEnabled := None; set_totpSecret := None;
                       set_salt := None |})])).
Proof.
  intros Hrun. revert Hrun. run_service; intros [= <- <-]; simplify_eq.
  all: cbn [calls]; unfold updates; rewrite ?omap_app; cbn; rewrite ?app_nil_r.
  all: try (split; [done|by left]).
  all: match goal with
       | H : bool_decide (_ < 8) = false |- _ =>
           apply bool_decide_eq_false in H
       end.
  all: split; [intros; lia|right].
  all: split; [done|]; split; [lia|].
  all: eexists _, _, _, _, _; split; [replay; reflexivity|];
       split; [replay; reflexivity|];
       split; [replay; reflexivity|]; reflexivity.
Qed.

(** X21: [register] asks for a user to be created only when there is no
    operator yet and the input passed its checks: a username and a
    password that are not empty, a username of at least 3 code units
    whose trimmed lower-case form is an email, which no user has yet.
    That form is the username stored, with what [argon2.hash] made of the
    password given as password, as an operator. *)
Theorem register_creates_only_when input st r st' :
  register toString length16 trim toLowerCase isEmail getLocaleFromString input st
    = (r, st') →
  created (calls st') = created (calls st)
  ∨ (input_username input ≠ "" ∧ input_password input ≠ ""
     ∧ 3 ≤ length16 (input_username input)
     ∧ isEmail (toLowerCase (trim (input_username input))) = true
     ∧ ∃ st1 st2 hashed st3,
         getOperators st = (Ok [], st1)
         ∧ getUserByUsername (toLowerCase (trim (input_username input))) st1
           = (Ok None, st2)
         ∧ hash (input_password input) st2 = (Ok hashed, st3)
         ∧ created (calls st') =
             created (calls st) ++
               [{| new_username := toLowerCase (trim (input_username input));
                   new_password := hashed;
                   new_operator := true;
                   new_locale := getLocaleFromString (input_locale input) |}]).
Proof.
  intros Hrun. revert Hrun. run_service; intros [= <- <-]; simplify_eq.
  all: cbn [calls]; unfold created; rewrite ?omap_app; cbn; rewrite ?app_nil_r.
  all: try by left.
  all: right.
  all: repeat match goal with
       | H : bool_decide _ = false |- _ => apply bool_decide_eq_false in H
       | H : negb _ = false |- _ => apply negb_false_iff in H
       end.
  all: match goal with
       | H : ¬ 0 < length ?l |- _ => destruct l; [|cbn in H; lia]
       end.
  all: split; [done|]; split; [done|]; split; [lia|]; split; [done|].
  all: eexists _, _, _, _; split; [replay; reflexivity|];
       split; [replay; reflexivity|];
       split; [replay; reflexivity|]; reflexivity.
Qed.

(** X22: [verifyTotp] returns only [true].  It sets a session only for
    the user whose id the cache holds for the TOTP session, when this
    user has TOTP enabled, a secret and a salt, and after the
    authenticator accepted the code against what [decrypt] made of the
    stored secret with the stored salt; the session id is the one [uuid]
    gave.  With any other outcome no session is set. *)
Theorem verifyTotp_sets_session_only_after_check (totpSession totpCode : string) st r st' :
  verifyTotp toString Number totpSession totpCode st = (r, st') →
  (∀ b, r = Ok b → b = true)
  ∧ (sessions (calls st') = sessions (calls st)
     ∨ ∃ userId user secret session st1 st2 st3 st4 st5,
         cacheGet totpSession st = (Ok userId, st1)
         ∧ falsy userId = false
         ∧ getUserById (Number (default "" userId)) st1 = (Ok (Some user), st2)
         ∧ totpEnabled user = true
         ∧ falsy (totpSecret user) = false
         ∧ falsy (salt user) = false
         ∧ decrypt (default "" (totpSecret user)) (default "" (salt user)) st2
           = (Ok secret, st3)
         ∧ totpCheck totpCode secret st3 = (Ok true, st4)
         ∧ uuidv4 st4 = (Ok session, st5)
         ∧ sessions (calls st') =
             sessions (calls st) ++ [(session, toString (id user))]).
Proof.
  intros Hrun. revert Hrun. run_service; intros [= <- <-]; simplify_eq.
  all: cbn [calls]; unfold sessions; rewrite ?omap_app; cbn; rewrite ?app_nil_r.
  all: split; [by intros ? [=]|].
  all: try by left.
  all: right; eexists _, _, _, _, _, _, _, _, _; split; [replay; reflexivity|];
       split; [eassumption|]; split; [replay; reflexivity|];
       split; [eassumption|]; split; [eassumption|]; split; [eassumption|];
       split; [replay; reflexivity|]; split; [replay; reflexivity|];
       split; [replay; reflexivity|]; reflexivity.
Qed.

(** X23: [checkPasswordChangeRequest] never throws, and answers [false]
    when the request file is said not to exist, when asking so throws,
    and when reading the file throws. *)
Theorem checkPasswordChangeRequest_never_throws st :
  ∃ pending st',
    checkPasswordChangeRequest request_pending DATA_DIR st = (Ok pending, st')
    ∧ (∀ st1,
         pathExists (password_change_request DATA_DIR) st = (Ok false, st1) →
         pending = false)
    ∧ (∀ e st1,
         pathExists (password_change_request DATA_DIR) st = (Throw e, st1) →
         pending = false)
    ∧ (∀ e st1 st2,
         pathExists (password_change_request DATA_DIR) st = (Ok true, st1) →
         readFile (password_change_request DATA_DIR) st1 = (Throw e, st2) →
         pending = false).
Proof.
  unfold checkPasswordChangeRequest, mbind, M_bind, try_catch, mret, M_ret.
  destruct (pathExists _ st) as [[[|]|e] st1] eqn:Hex;
    [destruct (readFile _ st1) as [[text|e] st2] eqn:Hrd;
       [destruct (now st2) as [[time|e] st3]|]|..];
    eexists _, _; (split; [reflexivity|]);
    repeat split; intros; congruence.
Qed.

Lemma checkPasswordChangeRequest_updates st :
  updates (calls (checkPasswordChangeRequest request_pending DATA_DIR st).2)
  = updates (calls st).
Proof.
  run_service; cbn [calls snd]; unfold updates;
    rewrite ?omap_app; cbn; by rewrite ?app_nil_r.
Qed.

(** X24: [changeOperatorPassword] asks for a user update only after
    [checkPasswordChangeRequest] answered [true]; the update is for the
    first operator and sets the password to what [argon2.hash] made of
    the new password, switches TOTP off and clears its secret. *)
Theorem changeOperatorPassword_needs_request (new : string) st r st' :
  changeOperatorPassword request_pending DATA_DIR new st = (r, st') →
  updates (calls st') = updates (calls st)
  ∨ ∃ st1 user st2 hashed st3,
      checkPasswordChangeRequest request_pending DATA_DIR st = (Ok true, st1)
      ∧ getFirstOperator st1 = (Ok (Some user), st2)
      ∧ hash new st2 = (Ok hashed, st3)
      ∧ updates (calls st') =
          updates (calls st) ++
            [(id user,
              {| set_username := None; set_password := Some hashed;
                 set_totpEnabled := Some false; set_totpSecret := Some None;
                 set_salt := None |})].
Proof.
  pose proof (checkPasswordChangeRequest_updates st) as Hcheck.
  unfold changeOperatorPassword, mbind, M_bind.
  destruct (checkPasswordChangeRequest _ _ st) as [[[|]|e] st1];
    cbn [snd negb] in *.
  2,3: intros [= <- <-]; by left.
  unfold getFirstOperator, hash, updateUser, unlink, destroyAllSessionsByUserId,
    throw, call, mret, M_ret.
  repeat first [host_answer | branch]; intros [= <- <-]; simplify_eq.
  all: cbn [calls]; unfold updates in *; rewrite ?omap_app, Hcheck; cbn;
       rewrite ?app_nil_r.
  all: try by left.
  all: right; eexists _, _, _, _, _; split; [reflexivity|];
       split; [replay; reflexivity|];
       split; [replay; reflexivity|]; reflexivity.
Qed.

(** X25: [setupTotp] switches TOTP on only outside demo mode, for the
    user of the id given, when this user has TOTP off, a secret and a
    salt, and after the authenticator accepted the code against what
    [decrypt] made of the stored secret with the stored salt. *)
Theorem setupTotp_enables_only_after_check (userId : Z) (totpCode : string) st r st' :
  setupTotp userId totpCode st = (r, st') →
  updates (calls st') = updates (calls st)
  ∨ (config_demoMode (world st) = false
     ∧ ∃ user secret st1 st2 st3,
         getUserById userId st = (Ok (Some user), st1)
         ∧ totpEnabled user = false
         ∧ falsy (totpSecret user) = false
         ∧ falsy (salt user) = false
         ∧ decrypt (default "" (totpSecret user)) (default "" (salt user)) st1
           = (Ok secret, st2)
         ∧ totpCheck totpCode secret st2 = (Ok true, st3)
         ∧ updates (calls st') =
             updates (calls st) ++
               [(userId,
                 {| set_username := None; set_password := None;
                    set_totpEnabled := Some true; set_totpSecret := None;
                    set_salt := None |})]).
Proof.
  intros Hrun. revert Hrun. run_service; intros [= <- <-]; simplify_eq.
  all: cbn [calls]; unfold updates; rewrite ?omap_app; cbn; rewrite ?app_nil_r.
  all: try by left.
  all: right; split; [done|];
       eexists _, _, _, _, _; split; [replay; reflexivity|];
       split; [eassumption|]; split; [eassumption|]; split; [eassumption|];
       split; [replay; reflexivity|]; split; [replay; reflexivity|];
       reflexivity.
Qed.

(** X26: [disableTotp] switches TOTP off, clearing the secret, only for a
    user that has it on and after [argon2.verify] accepted the
    password. *)
Theorem disableTotp_needs_password (userId : Z) (pass : string) st r st' :
  disableTotp userId pass st = (r, st') →
  updates (calls st') = updates (calls st)
  ∨ ∃ user st1 st2,
      getUserById userId st = (Ok (Some user), st1)
      ∧ totpEnabled user = true
      ∧ verify (password user) pass st1 = (Ok true, st2)
      ∧ updates (calls st') =
          updates (calls st) ++
            [(userId,
              {| set_username := None; set_password := None;
                 set_totpEnabled := Some false; set_totpSecret := Some None;
                 set_salt := None |})].
Proof.
  intros Hrun. revert Hrun. run_service; intros [= <- <-]; simplify_eq.
  all: cbn [calls]; unfold updates; rewrite ?omap_app; cbn; rewrite ?app_nil_r.
  all: try by left.
  all: right; eexists _, _, _; split; [replay; reflexivity|];
       split; [eassumption|]; split; [replay; reflexivity|]; reflexivity.
Qed.

(** X27: when [getTotpUri] returns, the user of the id given had TOTP
    off and [argon2.verify] accepted the password; the key handed out is
    the secret the authenticator generated then, and the URI is made from
    it.  The salt used is the user's, or a fresh session id when the user
    has none, and the user update stores what [encrypt] made of the
    generated secret with this salt, and the salt. *)
Theorem getTotpUri_stores_encrypted_secret (userId : Z) (pass : string) st uri key st' :
  getTotpUri keyuri userId pass st = (Ok (uri, key), st') →
  ∃ user usedSalt encrypted st1 st2 st3 st4 st5,
    getUserById userId st = (Ok (Some user), st1)
    ∧ totpEnabled user = false
    ∧ verify (password user) pass st1 = (Ok true, st2)
    ∧ generateSecret st2 = (Ok key, st3)
    ∧ uri = keyuri (username user) "Runtipi" key
    ∧ (if falsy (salt user)
       then generateSessionId "" st3 = (Ok usedSalt, st4)
       else salt user = Some usedSalt ∧ st4 = st3)
    ∧ encrypt key usedSalt st4 = (Ok encrypted, st5)
    ∧ updates (calls st') =
        updates (calls st) ++
          [(userId,
            {| set_username := None; set_password := None;
               set_totpEnabled := None;
               set_totpSecret := Some (Some encrypted);
               set_salt := Some usedSalt |})].
Proof.
  intros Hrun. revert Hrun. run_service; intros [= <- <- <-]; simplify_eq.
  all: cbn [calls]; unfold updates; rewrite ?omap_app; cbn; rewrite ?app_nil_r.
  all: match goal with
       | H : falsy (salt ?u) = false |- _ =>
           destruct (salt u) as [x|] eqn:?;
             [cbn [default from_option Datatypes.id] in *|discriminate H]
       | _ => idtac
       end.
  all: eexists _, _, _, _, _, _, _, _; split; [replay; reflexivity|];
       split; [eassumption|]; split; [replay; reflexivity|];
       split; [replay; reflexivity|]; split; [reflexivity|].
  all: try match goal with
       | H : salt _ = Some _ |- _ => rewrite H
       end.
  all: match goal with
       | H : falsy _ = _ |- _ => rewrite H
       end.
  all: first [ split; [replay; reflexivity|]
             | split; [split; reflexivity|] ];
       split; [replay; reflexivity|]; reflexivity.
Qed.

End Service.
Import Toy.

Lemma demo_mode_blocks_account_changes_witness :
  getTotpUri uri_of 1 "hunter22" (start (with_user admin true))
    = (Throw (translated "SERVER_ERROR_NOT_ALLOWED_IN_DEMO"), start (with_user admin true))
  ∧ setupTotp 1 "hunter22" (start (with_user admin true))
    = (Throw (translated "SERVER_ERROR_NOT_ALLOWED_IN_DEMO"), start (with_user admin true))
  ∧ changePassword String.length "hunter22" "correct horse" 1
      (start (with_user admin true))
    = (Throw (translated "SERVER_ERROR_NOT_ALLOWED_IN_DEMO"), start (with_user admin true))
  ∧ changeUsername same same has_at "hunter22" "correct horse" 1
      (start (with_user admin true))
    = (Throw (translated "SERVER_ERROR_NOT_ALLOWED_IN_DEMO"), start (with_user admin true)).
Proof.
  apply (demo_mode_blocks_account_changes String.length same same has_at uri_of
           (start (with_user admin true)) 1 "hunter22" "correct horse").
  reflexivity.
Defined.

Lemma login_requires_verified_password_witness :
  ∃ user st1 st2,
    getUserByUsername "admin@example.com" (start (with_user admin_with_totp false))
      = (Ok (Some user), st1)
    ∧ verify (password user) "hunter22" st1 = (Ok true, st2)
    ∧ totpEnabled user = true.
Proof.
  edestruct (login_requires_verified_password show_id admin_login
               (start (with_user admin_with_totp false)))
    as (user & st1 & st2 & Huser & Hverify & _); [reflexivity|].
  exists user, st1, st2. split; [exact Huser|]. split; [exact Hverify|].
  injection Huser as <- _. reflexivity.
Defined.

Lemma login_writes_only_after_verification_witness :
  sessions (calls (login show_id
              {| input_username := "admin@example.com";
                 input_password := "guess"; input_locale := None |}
              (start (with_user admin false))).2) = []
  ∧ cached (calls (login show_id
              {| input_username := "admin@example.com";
                 input_password := "guess"; input_locale := None |}
              (start (with_user admin false))).2) = [].
Proof.
  edestruct (login_writes_only_after_verification show_id
               {| input_username := "admin@example.com";
                  input_password := "guess"; input_locale := None |}
               (start (with_user admin false)))
    as [Hnone|(user & st1 & st2 & Huser & Hverify)]; [reflexivity|..].
  - exact Hnone.
  - injection Huser as <- <-. discriminate Hverify.
Defined.

Lemma changePassword_updates_only_when_witness :
  updates (calls (changePassword String.length "hunter22" "correct horse" 1
                    (start (with_user admin false))).2)
  = [(1%Z,
      {| set_username := None; set_password := Some "argon2:correct horse";
         set_totpEnabled := None; set_totpSecret := None; set_salt := None |})].
Proof.
  edestruct (changePassword_updates_only_when String.length "hunter22"
               "correct horse" 1 (start (with_user admin false)))
    as [_ [Hnone|(_ & _ & user & st1 & st2 & hashed & st3
                  & Huser & Hverify & Hhash & Hupd)]];
    [apply surjective_pairing|..].
  - discriminate Hnone.
  - injection Huser as <- <-. injection Hverify as <-.
    injection Hhash as <- _. exact Hupd.
Defined.

Lemma register_creates_only_when_witness :
  created (calls (register show_id String.length same same has_at locale_of
                    admin_login (start fresh)).2)
  = [{| new_username := "admin@example.com"; new_password := "argon2:hunter22";
        new_operator := true; new_locale := "en" |}].
Proof.
  edestruct (register_creates_only_when show_id String.length same same has_at
               locale_of admin_login (start fresh))
    as [Hnone|(_ & _ & _ & _ & st1 & st2 & hashed & st3
               & Hops & Huser & Hhash & Hnew)];
    [apply surjective_pairing|..].
  - discriminate Hnone.
  - injection Hops as <-. injection Huser as <-.
    injection Hhash as <- _. exact Hnew.
Defined.

Lemma verifyTotp_sets_session_only_after_check_witness :
  sessions (calls (verifyTotp show_id read_id "otp-1" "SECRET"
                     (start with_totp_session)).2)
  = [("7c9e6679", "user-1")].
Proof.
  edestruct (verifyTotp_sets_session_only_after_check show_id read_id
               "otp-1" "SECRET" (start with_totp_session))
    as [_ [Hnone|(userId & user & secret & session & st1 & st2 & st3 & st4 & st5
                  & Hcache & _ & Huser & _ & _ & _ & Hsecret & Hcheck
                  & Huuid & Hset)]];
    [apply surjective_pairing|..].
  - discriminate Hnone.
  - injection Hcache as <- <-. injection Huser as <- <-.
    injection Hsecret as <- <-. injection Hcheck as <-.
    injection Huuid as <- _. exact Hset.
Defined.

Lemma changeOperatorPassword_needs_request_witness :
  updates (calls (changeOperatorPassword always_pending "/data" "correct horse"
                    (start with_request)).2)
  = [(1%Z,
      {| set_username := None; set_password := Some "argon2:correct horse";
         set_totpEnabled := Some false; set_totpSecret := Some None;
         set_salt := None |})].
Proof.
  edestruct (changeOperatorPassword_needs_request always_pending "/data"
               "correct horse" (start with_request))
    as [Hnone|(st1 & user & st2 & hashed & st3
               & Hcheck & Huser & Hhash & Hupd)];
    [apply surjective_pairing|..].
  - discriminate Hnone.
  - injection Hcheck as <-. injection Huser as <- <-.
    injection Hhash as <- _. exact Hupd.
Defined.

Lemma setupTotp_enables_only_after_check_witness :
  updates (calls (setupTotp 1 "SECRET"
                    (start (with_user admin_setting_up_totp false))).2)
  = [(1%Z,
      {| set_username := None; set_password := None;
         set_totpEnabled := Some true; set_totpSecret := None;
         set_salt := None |})].
Proof.
  edestruct (setupTotp_enables_only_after_check 1 "SECRET"
               (start (with_user admin_setting_up_totp false)))
    as [Hnone|(_ & user & secret & st1 & st2 & st3
               & _ & _ & _ & _ & _ & _ & Hupd)];
    [apply surjective_pairing|..].
  - discriminate Hnone.
  - exact Hupd.
Defined.

Lemma disableTotp_needs_password_witness :
  updates (calls (disableTotp 1 "guess"
                    (start (with_user admin_with_totp false))).2) = [].
Proof.
  edestruct (disableTotp_needs_password 1 "guess"
               (start (with_user admin_with_totp false)))
    as [Hnone|(user & st1 & st2 & Huser & _ & Hverify & _)]; [reflexivity|..].
  - exact Hnone.
  - injection Huser as <- <-. discriminate Hverify.
Defined.

Lemma getTotpUri_stores_encrypted_secret_witness :
  (getTotpUri uri_of 1 "hunter22" (start (with_user admin false))).1
  = Ok ("otpauth://totp/Runtipi:admin@example.com?secret=SECRET", "SECRET")
  ∧ updates (calls (getTotpUri uri_of 1 "hunter22"
                      (start (with_user admin false))).2)
    = [(1%Z,
        {| set_username := None; set_password := None;
           set_totpEnabled := None;
           set_totpSecret := Some (Some "SECRET");
           set_salt := Some "-1" |})].
Proof.
  split; [reflexivity|].
  edestruct (getTotpUri_stores_encrypted_secret uri_of 1 "hunter22"
               (start (with_user admin false))
               "otpauth://totp/Runtipi:admin@example.com?secret=SECRET" "SECRET")
    as (user & usedSalt & encrypted & st1 & st2 & st3 & st4 & st5
        & Huser & _ & Hverify & Hkey & _ & Hsalt & Hencrypt & Hupd);
    [reflexivity|].
  injection Huser as <- <-. injection Hverify as <-.
  injection Hkey as <-. injection Hsalt as <- <-.
  injection Hencrypt as <- _. exact Hupd.
Defined.

End AuthFacts.
